(** * Batch job subsystem of the LLM gateway: a shallow embedding

    The development follows the Python sources:
      - [app/models/schemas.py]         records of the data model
      - [app/config.py]                 the model registry
      - [app/services/batch_service.py] job store, queue and job life cycle
      - [app/services/llm_client.py]    the task executor
      - [app/routers/batch.py]          the submission endpoint
      - [workers/batch_worker.py]       the worker loop

    Conventions.  Python [int] is [Z]; [float] is a binary64 float; [str] is
    [string]; [Optional[T]] is [option T]; a value read by [int(time.time())]
    is an explicit argument [now]; the hexadecimal digits drawn from
    [uuid.uuid4()] are an explicit argument [uuid_hex].  One call of the
    service is one instant: the Redis commands it issues and the clock it
    reads share the argument [now], and so does the stretch of the worker
    that runs without an [await]; the clock that the submission endpoint
    reads again for its answer is an argument of its own.  The Redis server
    is modelled by its key space (string values with an absolute expiry
    time) and the list stored under [batch_queue].

    Records pass through [json.dumps] on their way into Redis and through
    [json.loads] on their way back.  On dictionaries, lists, strings, numbers
    and [None] the round trip is the identity, so the key space holds the
    records themselves.  Two things are not the identity and are modelled
    where they happen: [json.dumps] raises [TypeError] on a record whose
    tasks hold [Message] objects, which is what the submission endpoint
    builds from a request with messages; and the messages of a task read
    back from Redis are dictionaries, on which [chat_completion] fails when
    it reads [msg.role].  The dictionary fallback keeps the objects it is
    given, which are the endpoint's [Message] objects, and hands them back.

    Calls to the logging collaborator have no effect on the modelled state
    and are left out; the Redis connection and the logger are taken not to
    raise. *)

From Stdlib Require Import ZArith PrimFloat Ascii.
From stdpp Require Import gmap strings list relations.

Local Open Scope Z_scope.

(* Decimal literals denote the nearest binary64 value, as they do in Python. *)
Local Set Warnings "-inexact-float".
Local Set Warnings "-clear-no-such-hyp".

(** ** Python truth values *)

Class Truthy (A : Type) := truthy : A → bool.

Global Instance truthy_Z : Truthy Z := λ n, negb (n =? 0).
Global Instance truthy_float : Truthy float := λ f, negb (PrimFloat.eqb f 0%float).
Global Instance truthy_string : Truthy string :=
  λ s, match s with EmptyString => false | String _ _ => true end.
Global Instance truthy_list {A} : Truthy (list A) :=
  λ l, match l with [] => false | _ :: _ => true end.
Global Instance truthy_option {A} `{Truthy A} : Truthy (option A) :=
  λ o, match o with None => false | Some x => truthy x end.

(** [o or d] for an optional [o] and a default [d]. *)
Definition or_default {A} `{Truthy A} (o : option A) (d : A) : A :=
  match o with
  | Some x => if truthy x then x else d
  | None => d
  end.

(** [sum(1 for r in l if p r)] *)
Definition sum_ones {A} (p : A → bool) (l : list A) : Z :=
  foldr (λ r acc, if p r then 1 + acc else acc) 0 l.

(** ** Schemas *)

Record Message := { role : string; content : string }.

Record UsageInfo := {
  prompt_tokens : Z;
  completion_tokens : Z;
  total_tokens : Z
}.

Record ChatChoice := {
  choice_index : Z;
  choice_message : Message;
  finish_reason : option string
}.

Record ChatCompletionResponse := {
  resp_id : string;
  resp_model : string;
  resp_created : Z;
  resp_choices : list ChatChoice;
  resp_usage : UsageInfo
}.

(** JSON values, for the caller's opaque metadata. *)
Unset Elimination Schemes.
Inductive Json :=
  | JNull
  | JBool (b : bool)
  | JInt (n : Z)
  | JFloat (f : float)
  | JString (s : string)
  | JArray (l : list Json)
  | JObject (o : list (string * Json)).
Set Elimination Schemes.

(** A task as the service holds it: [{"id": ..., "messages": ...}]. *)
Record Task := { task_id : string; task_messages : list Message }.

(** A task result: [{"id", "output", "usage", "error"}]. *)
Record TaskResult := {
  result_id : string;
  result_output : string;
  result_usage : UsageInfo;
  result_error : option string
}.

(** The job record built by [submit_batch_job]. *)
Record Job := {
  job_id : string;
  status : string;
  model_id : string;
  tasks : list Task;
  max_tokens : Z;
  temperature : float;
  top_p : float;
  metadata : list (string * Json);
  submitted_at : Z;
  started_at : option Z;
  completed_at : option Z;
  task_count : Z;
  completed_count : Z;
  failed_count : Z;
  results : option (list TaskResult);
  error : option string
}.

(** [job_data[k] = v] for the keys that [update_job_status] assigns. *)
Definition set_status (j : Job) (v : string) : Job :=
  {| job_id := job_id j; status := v; model_id := model_id j; tasks := tasks j;
     max_tokens := max_tokens j; temperature := temperature j; top_p := top_p j;
     metadata := metadata j; submitted_at := submitted_at j;
     started_at := started_at j; completed_at := completed_at j;
     task_count := task_count j; completed_count := completed_count j;
     failed_count := failed_count j; results := results j; error := error j |}.

Definition set_started_at (j : Job) (v : option Z) : Job :=
  {| job_id := job_id j; status := status j; model_id := model_id j; tasks := tasks j;
     max_tokens := max_tokens j; temperature := temperature j; top_p := top_p j;
     metadata := metadata j; submitted_at := submitted_at j;
     started_at := v; completed_at := completed_at j;
     task_count := task_count j; completed_count := completed_count j;
     failed_count := failed_count j; results := results j; error := error j |}.

Definition set_completed_at (j : Job) (v : option Z) : Job :=
  {| job_id := job_id j; status := status j; model_id := model_id j; tasks := tasks j;
     max_tokens := max_tokens j; temperature := temperature j; top_p := top_p j;
     metadata := metadata j; submitted_at := submitted_at j;
     started_at := started_at j; completed_at := v;
     task_count := task_count j; completed_count := completed_count j;
     failed_count := failed_count j; results := results j; error := error j |}.

Definition set_results (j : Job) (v : option (list TaskResult)) : Job :=
  {| job_id := job_id j; status := status j; model_id := model_id j; tasks := tasks j;
     max_tokens := max_tokens j; temperature := temperature j; top_p := top_p j;
     metadata := metadata j; submitted_at := submitted_at j;
     started_at := started_at j; completed_at := completed_at j;
     task_count := task_count j; completed_count := completed_count j;
     failed_count := failed_count j; results := v; error := error j |}.

Definition set_completed_count (j : Job) (v : Z) : Job :=
  {| job_id := job_id j; status := status j; model_id := model_id j; tasks := tasks j;
     max_tokens := max_tokens j; temperature := temperature j; top_p := top_p j;
     metadata := metadata j; submitted_at := submitted_at j;
     started_at := started_at j; completed_at := completed_at j;
     task_count := task_count j; completed_count := v;
     failed_count := failed_count j; results := results j; error := error j |}.

Definition set_failed_count (j : Job) (v : Z) : Job :=
  {| job_id := job_id j; status := status j; model_id := model_id j; tasks := tasks j;
     max_tokens := max_tokens j; temperature := temperature j; top_p := top_p j;
     metadata := metadata j; submitted_at := submitted_at j;
     started_at := started_at j; completed_at := completed_at j;
     task_count := task_count j; completed_count := completed_count j;
     failed_count := v; results := results j; error := error j |}.

Definition set_error (j : Job) (v : option string) : Job :=
  {| job_id := job_id j; status := status j; model_id := model_id j; tasks := tasks j;
     max_tokens := max_tokens j; temperature := temperature j; top_p := top_p j;
     metadata := metadata j; submitted_at := submitted_at j;
     started_at := started_at j; completed_at := completed_at j;
     task_count := task_count j; completed_count := completed_count j;
     failed_count := failed_count j; results := results j; error := v |}.

(** Request and response of the submission endpoint. *)
Record BatchTask := { bt_id : string; bt_messages : list Message }.

Record BatchGenerationRequest := {
  req_model : string;
  req_tasks : list BatchTask;
  req_max_tokens : option Z;
  req_temperature : option float;
  req_top_p : option float;
  batch_metadata : option (list (string * Json))
}.

Record BatchSubmissionResponse := {
  sub_job_id : string;
  sub_status : string;
  sub_submitted_at : Z;
  sub_task_count : Z
}.

Record HTTPException := { status_code : Z; detail : string }.

(** ** Model registry ([app/config.py]) *)

Record ModelEntry := {
  model_name : string;
  backend_type : option string;
  base_url : option string;
  timeout : option float
}.

(** The one setting the batch path reads. *)
Record Settings := { openai_api_key : option string }.

Record ModelConfig := { models : gmap string ModelEntry }.

Definition get_model (self : ModelConfig) (model_id : string) : option ModelEntry :=
  models self !! model_id.

Definition is_valid_model (self : ModelConfig) (model_id : string) : bool :=
  bool_decide (is_Some (models self !! model_id)).

(** ** Storage back ends *)

(** The Redis server: string keys with their value and the time at which the
    key expires, and the list under [batch_queue] (head first). *)
Record RedisDb := {
  keyspace : gmap string (Job * Z);
  batch_queue : list string
}.

(** [SET name value EX ex] issued at time [now]. *)
Definition redis_set (db : RedisDb) (now : Z) (name : string) (value : Job) (ex : Z)
    : RedisDb :=
  {| keyspace := <[name := (value, now + ex)]> (keyspace db);
     batch_queue := batch_queue db |}.

(** [GET name] issued at time [now].  The server drops a key once its clock
    is past the key's expiry time, and still serves it at that time itself.
    (Times are whole seconds here.  The server counts from the instant of the
    [SET] within its second, so of the second that begins at the expiry time
    it serves the key for a part only; the statements below that depend on
    the expiry speak of the times before and of the times after it.) *)
Definition redis_get (db : RedisDb) (now : Z) (name : string) : option Job :=
  match keyspace db !! name with
  | Some (value, expires) => if now <=? expires then Some value else None
  | None => None
  end.

(** [LPUSH batch_queue value] *)
Definition redis_lpush (db : RedisDb) (value : string) : RedisDb :=
  {| keyspace := keyspace db; batch_queue := value :: batch_queue db |}.

(** [RPOP batch_queue] *)
Definition redis_rpop (db : RedisDb) : option string * RedisDb :=
  match reverse (batch_queue db) with
  | [] => (None, db)
  | x :: front => (Some x, {| keyspace := keyspace db; batch_queue := reverse front |})
  end.

(** A Python [dict] keeps its keys in insertion order; assigning to an
    existing key keeps the key's position. *)
Fixpoint dict_get (d : list (string * Job)) (k : string) : option Job :=
  match d with
  | [] => None
  | (k', v) :: d' => if decide (k' = k) then Some v else dict_get d' k
  end.

Fixpoint dict_set (d : list (string * Job)) (k : string) (v : Job) : list (string * Job) :=
  match d with
  | [] => [(k, v)]
  | (k', v') :: d' =>
      if decide (k' = k) then (k, v) :: d' else (k', v') :: dict_set d' k v
  end.

(** ** The batch service ([app/services/batch_service.py]) *)

(** [self.redis_client] is a connected client, or [None] together with the
    dictionary [self._in_memory_jobs]; the choice is made once, in
    [_initialize_redis]. *)
Inductive BatchService :=
  | WithRedis (redis_client : RedisDb)
  | InMemory (_in_memory_jobs : list (string * Job)).

Definition retention : Z := 86400.

Definition submit_batch_job (self : BatchService) (now : Z) (uuid_hex : string)
    (model_id : string) (tasks : list Task) (max_tokens : Z)
    (temperature top_p : float) (metadata : option (list (string * Json)))
    : string * BatchService :=
  let job_id := "batch-" +:+ uuid_hex in
  let submitted_at := now in
  let job_data :=
    {| job_id := job_id; status := "queued"; model_id := model_id; tasks := tasks;
       max_tokens := max_tokens; temperature := temperature; top_p := top_p;
       metadata := or_default metadata [];
       submitted_at := submitted_at; started_at := None; completed_at := None;
       task_count := Z.of_nat (length tasks);
       completed_count := 0; failed_count := 0;
       results := None; error := None |} in
  match self with
  | WithRedis db =>
      let db := redis_set db now ("job:" +:+ job_id) job_data retention in
      let db := redis_lpush db job_id in
      (job_id, WithRedis db)
  | InMemory jobs =>
      (job_id, InMemory (dict_set jobs job_id job_data))
  end.

Definition get_job_status (self : BatchService) (now : Z) (job_id : string) : option Job :=
  match self with
  | WithRedis db => redis_get db now ("job:" +:+ job_id)
  | InMemory jobs => dict_get jobs job_id
  end.

Definition update_job_status (self : BatchService) (now : Z) (job_id : string)
    (status : string) (results : option (list TaskResult)) (error : option string)
    : BatchService :=
  match get_job_status self now job_id with
  | None => self
  | Some job_data =>
      let job_data := set_status job_data status in
      let job_data :=
        if String.eqb status "processing" && negb (truthy (started_at job_data))
        then set_started_at job_data (Some now)
        else job_data in
      let job_data :=
        if String.eqb status "completed" || String.eqb status "failed"
        then set_completed_at job_data (Some now)
        else job_data in
      let job_data :=
        match results with
        | Some rs =>
            if truthy rs then
              let job_data := set_results job_data (Some rs) in
              let job_data :=
                set_completed_count job_data
                  (sum_ones (λ r, negb (truthy (result_error r))) rs) in
              set_failed_count job_data (sum_ones (λ r, truthy (result_error r)) rs)
            else job_data
        | None => job_data
        end in
      let job_data :=
        if truthy error then set_error job_data error else job_data in
      match self with
      | WithRedis db =>
          WithRedis (redis_set db now ("job:" +:+ job_id) job_data retention)
      | InMemory jobs =>
          InMemory (dict_set jobs job_id job_data)
      end
  end.

(** First key of the dictionary whose record is still queued. *)
Fixpoint first_queued (d : list (string * Job)) : option string :=
  match d with
  | [] => None
  | (k, job_data) :: d' =>
      if String.eqb (status job_data) "queued" then Some k else first_queued d'
  end.

Definition get_next_job (self : BatchService) : option string * BatchService :=
  match self with
  | WithRedis db =>
      let '(job_id, db) := redis_rpop db in (job_id, WithRedis db)
  | InMemory jobs => (first_queued jobs, self)
  end.

(** The record that [submit_batch_job] builds. *)
Definition submitted_record (now : Z) (uuid_hex : string) (model_id : string)
    (tasks : list Task) (max_tokens : Z) (temperature top_p : float)
    (metadata : option (list (string * Json))) : Job :=
  {| job_id := "batch-" +:+ uuid_hex; status := "queued"; model_id := model_id;
     tasks := tasks; max_tokens := max_tokens; temperature := temperature;
     top_p := top_p; metadata := or_default metadata [];
     submitted_at := now; started_at := None; completed_at := None;
     task_count := Z.of_nat (length tasks);
     completed_count := 0; failed_count := 0;
     results := None; error := None |}.

(** The record that [update_job_status] writes back for a record
    [job_data] it found: the assignments between the lookup and the write. *)
Definition updated_record (job_data : Job) (now : Z) (status : string)
    (results : option (list TaskResult)) (error : option string) : Job :=
  let job_data := set_status job_data status in
  let job_data :=
    if String.eqb status "processing" && negb (truthy (started_at job_data))
    then set_started_at job_data (Some now)
    else job_data in
  let job_data :=
    if String.eqb status "completed" || String.eqb status "failed"
    then set_completed_at job_data (Some now)
    else job_data in
  let job_data :=
    match results with
    | Some rs =>
        if truthy rs then
          let job_data := set_results job_data (Some rs) in
          let job_data :=
            set_completed_count job_data
              (sum_ones (λ r, negb (truthy (result_error r))) rs) in
          set_failed_count job_data (sum_ones (λ r, truthy (result_error r)) rs)
        else job_data
    | None => job_data
    end in
  if truthy error then set_error job_data error else job_data.

(** The write that ends [submit_batch_job] (without the queue) and
    [update_job_status]. *)
Definition write_record (self : BatchService) (now : Z) (job_id : string)
    (job_data : Job) : BatchService :=
  match self with
  | WithRedis db => WithRedis (redis_set db now ("job:" +:+ job_id) job_data retention)
  | InMemory jobs => InMemory (dict_set jobs job_id job_data)
  end.

(** Whether a record written at time [written] is sure to be served at time
    [t]: on Redis, when [t] lies before the end of its time to live; on the
    dictionary, always. *)
Definition served (self : BatchService) (written t : Z) : bool :=
  match self with
  | WithRedis _ => t <? written + retention
  | InMemory _ => true
  end.

(** The record kept under a job id, whether or not its time to live has
    run out. *)
Definition stored (self : BatchService) (job_id : string) : option Job :=
  match self with
  | WithRedis db => fst <$> keyspace db !! ("job:" +:+ job_id)
  | InMemory jobs => dict_get jobs job_id
  end.

Definition empty_service (self : BatchService) : Prop :=
  self = WithRedis {| keyspace := ∅; batch_queue := [] |} ∨ self = InMemory [].

(** The order of the life cycle: one move forward. *)
Inductive advances : string → string → Prop :=
  | adv_start : advances "queued" "processing"
  | adv_complete : advances "processing" "completed"
  | adv_fail : advances "processing" "failed".

(** The stage of the life cycle a status stands for. *)
Definition stage (status : string) : nat :=
  if String.eqb status "queued" then 0
  else if String.eqb status "processing" then 1
  else 2.

(** The ids waiting in the Redis list; the dictionary fallback keeps no
    list. *)
Definition queue_of (self : BatchService) : list string :=
  match self with
  | WithRedis db => batch_queue db
  | InMemory _ => []
  end.

(** A dictionary has each key once. *)
Definition dict_keys_unique (self : BatchService) : Prop :=
  match self with
  | WithRedis _ => True
  | InMemory jobs => NoDup jobs.*1
  end.

(** What a populated [results] field has to look like: one entry per task,
    in task order, and the two counts taken from the entries. *)
Definition results_cover_tasks (job_data : Job) (rs : list TaskResult) : Prop :=
  Z.of_nat (length rs) = task_count job_data ∧
  result_id <$> rs = task_id <$> tasks job_data ∧
  completed_count job_data = sum_ones (λ r, negb (truthy (result_error r))) rs ∧
  failed_count job_data = sum_ones (λ r, truthy (result_error r)) rs ∧
  completed_count job_data + failed_count job_data = task_count job_data.

Definition record_consistent (job_data : Job) : Prop :=
  task_count job_data = Z.of_nat (length (tasks job_data)) ∧
  ∀ rs, results job_data = Some rs → results_cover_tasks job_data rs.

(** How the record under one job id may differ between two consecutive
    states: it appears as queued, stays in its status, or moves one step
    forward; it never disappears from the store's own data. *)
Definition lifecycle_move (before after : option Job) : Prop :=
  match before, after with
  | None, None => True
  | None, Some job' => status job' = "queued"
  | Some job, Some job' =>
      status job' = status job ∨ advances (status job) (status job')
  | Some _, None => False
  end.

(** ** The LLM client ([app/services/llm_client.py]) *)

(** A raised exception: its class and [str(e)]. *)
Record PyExn := { exn_class : string; exn_str : string }.

Definition ValueError (msg : string) : PyExn :=
  {| exn_class := "ValueError"; exn_str := msg |}.
Definition RuntimeError (msg : string) : PyExn :=
  {| exn_class := "RuntimeError"; exn_str := msg |}.
Definition IndexError : PyExn :=
  {| exn_class := "IndexError"; exn_str := "list index out of range" |}.
Definition TypeError (msg : string) : PyExn :=
  {| exn_class := "TypeError"; exn_str := msg |}.
Definition AttributeError (msg : string) : PyExn :=
  {| exn_class := "AttributeError"; exn_str := msg |}.

(** What a handler may raise: an HTTP error of its own, the validation error
    of its response model, or an exception of the code it calls, which it
    does not catch. *)
Inductive Raised :=
  | RaisedHTTP (e : HTTPException)
  | RaisedValidationError
  | RaisedException (e : PyExn).

(** [json.dumps (job_data)] for the record that [submit_batch_job] builds
    from the tasks the endpoint hands it.  These tasks hold the [Message]
    objects of the request; [json.dumps] writes dictionaries, lists, strings,
    numbers and [None] and raises [TypeError] for an object of any other
    class, so it raises as soon as a task has a message. *)
Definition json_dumps_message_objects (tasks : list Task) : option PyExn :=
  if existsb (λ task, truthy (task_messages task)) tasks
  then Some (TypeError "Object of type Message is not JSON serializable")
  else None.

(** What the backend's [chat.completions.create] answers. *)
Record BackendChoice := {
  bc_content : option string;
  bc_finish_reason : option string
}.

Record BackendResponse := {
  br_choices : list BackendChoice;
  br_usage : option UsageInfo
}.

(** The arguments an [AsyncOpenAI] client is built with. *)
Record AsyncOpenAI := {
  client_api_key : string;
  client_base_url : option string;
  client_timeout : float
}.

(** Computations that read and change the world outside the process and may
    raise. *)
Definition IO (World A : Type) : Type := World → (PyExn + A) * World.

Global Instance io_ret {World} : MRet (IO World) := λ A x w, (inr x, w).

Global Instance io_bind {World} : MBind (IO World) := λ A B f m w,
  match m w with
  | (inr x, w') => f x w'
  | (inl e, w') => (inl e, w')
  end.

Definition raise {World A} (e : PyExn) : IO World A := λ w, (inl e, w).

(** [try: body  except Exception as e: handler e] *)
Definition try_except {World A} (body : IO World A) (handler : PyExn → IO World A)
    : IO World A :=
  λ w, match body w with
       | (inr x, w') => (inr x, w')
       | (inl e, w') => handler e w'
       end.

(** [l[0]] *)
Definition index0 {World A} (l : list A) : IO World A :=
  match l with
  | [] => raise IndexError
  | x :: _ => mret x
  end.

Section LLMClient.
Context {World : Type}.

(** The model invocation capability: [client.chat.completions.create] of
    the client built for a registry entry.  It answers or raises, and
    changes the world. *)
Variable create :
  AsyncOpenAI → string → list Message → Z → float → float
  → IO World BackendResponse.
(** [time.time()] and [uuid.uuid4().hex[:12]] as the world gives them. *)
Variable clock : World → Z.
Variable uuid4_hex : World → string.

Variable settings : Settings.
Variable model_registry : ModelConfig.

(** The client for a model.  The source keeps the clients it has built in
    [self.clients]; the registry does not change once loaded, so the client
    kept for a model is the one built here. *)
Definition _get_client (model_id : string) : IO World AsyncOpenAI :=
  match get_model model_registry model_id with
  | None => raise (ValueError ("Unknown model: " +:+ model_id))
  | Some model_config =>
      let backend_type := default "openai_compatible" (backend_type model_config) in
      let base_url := base_url model_config in
      let api_key :=
        if String.eqb backend_type "openai"
        then or_default (openai_api_key settings) "dummy-key"
        else "dummy-key" in
      mret {| client_api_key := api_key;
              client_base_url := if truthy base_url then base_url else None;
              client_timeout := default 60%float (timeout model_config) |}
  end.

Definition time_time : IO World Z := λ w, (inr (clock w), w).
Definition uuid4 : IO World string := λ w, (inr (uuid4_hex w), w).

Definition chat_completion (model_id : string) (messages : list Message)
    (max_tokens : Z) (temperature top_p : float) : IO World ChatCompletionResponse :=
  match get_model model_registry model_id with
  | None => raise (ValueError ("Unknown model: " +:+ model_id))
  | Some model_config =>
      client ← _get_client model_id;
      let backend_model_name := model_name model_config in
      start_time ← time_time;
      try_except
        (response ← create client backend_model_name messages
                       max_tokens temperature top_p;
         hex ← uuid4;
         let completion_id := "chatcmpl-" +:+ hex in
         let created_at := start_time in
         first ← index0 (br_choices response);
         let choice :=
           {| choice_index := 0;
              choice_message :=
                {| role := "assistant";
                   content := or_default (bc_content first) "" |};
              finish_reason := bc_finish_reason first |} in
         let usage :=
           match br_usage response with
           | Some u =>
               {| prompt_tokens := prompt_tokens u;
                  completion_tokens := completion_tokens u;
                  total_tokens := total_tokens u |}
           | None =>
               {| prompt_tokens := 0; completion_tokens := 0; total_tokens := 0 |}
           end in
         mret {| resp_id := completion_id; resp_model := model_id;
                 resp_created := created_at; resp_choices := [choice];
                 resp_usage := usage |})
        (λ e, raise (RuntimeError
                       ("Error calling model " +:+ model_id +:+ ": " +:+ exn_str e)))
  end.

(** The body of [for task in tasks] with the list [results] built so far. *)
Fixpoint batch_loop (model_id : string) (max_tokens : Z) (temperature top_p : float)
    (tasks : list Task) (results : list TaskResult) : IO World (list TaskResult) :=
  match tasks with
  | [] => mret results
  | task :: rest =>
      let task_id := task_id task in
      let messages := task_messages task in
      results ←
        try_except
          (response ← chat_completion model_id messages max_tokens temperature top_p;
           first ← index0 (resp_choices response);
           mret (results ++
                 [ {| result_id := task_id;
                      result_output := content (choice_message first);
                      result_usage :=
                        {| prompt_tokens := prompt_tokens (resp_usage response);
                           completion_tokens := completion_tokens (resp_usage response);
                           total_tokens := total_tokens (resp_usage response) |};
                      result_error := None |} ]))
          (λ e,
           mret (results ++
                 [ {| result_id := task_id;
                      result_output := "";
                      result_usage :=
                        {| prompt_tokens := 0; completion_tokens := 0;
                           total_tokens := 0 |};
                      result_error := Some (exn_str e) |} ]));
      batch_loop model_id max_tokens temperature top_p rest results
  end.

Definition batch_chat_completion (model_id : string) (tasks : list Task)
    (max_tokens : Z) (temperature top_p : float) : IO World (list TaskResult) :=
  batch_loop model_id max_tokens temperature top_p tasks [].

(** The model calls of a batch as a plain sequence: one call of
    [chat_completion] per task, in order, each starting in the world the
    previous one left, whatever the previous one answered. *)
Fixpoint model_calls (model_id : string) (max_tokens : Z) (temperature top_p : float)
    (tasks : list Task) (w : World)
    : list (PyExn + ChatCompletionResponse) * World :=
  match tasks with
  | [] => ([], w)
  | task :: rest =>
      let '(r, w') :=
        chat_completion model_id (task_messages task) max_tokens temperature top_p w in
      let '(rs, w'') := model_calls model_id max_tokens temperature top_p rest w' in
      (r :: rs, w'')
  end.

(** ** The client on tasks read back from Redis

    [get_job_status] on Redis returns what [json.loads] builds, so the
    messages of the tasks the worker passes on are dictionaries. *)

(** [chat_completion] handed a list of dictionaries.  The registry is looked
    up and the client built as before; then the conversion of the messages
    reads [msg.role], which a dictionary does not have: [AttributeError], on
    the first message, outside the [try] and before any call to the
    backend.  Without messages there is nothing to read, and the call goes
    on as [chat_completion] does for the empty list. *)
Definition chat_completion_dicts (model_id : string) (messages : list Message)
    (max_tokens : Z) (temperature top_p : float) : IO World ChatCompletionResponse :=
  match get_model model_registry model_id with
  | None => raise (ValueError ("Unknown model: " +:+ model_id))
  | Some model_config =>
      client ← _get_client model_id;
      match messages with
      | _ :: _ => raise (AttributeError "'dict' object has no attribute 'role'")
      | [] => chat_completion model_id [] max_tokens temperature top_p
      end
  end.

(** [batch_chat_completion] on such tasks: the same loop. *)
Fixpoint batch_loop_dicts (model_id : string) (max_tokens : Z) (temperature top_p : float)
    (tasks : list Task) (results : list TaskResult) : IO World (list TaskResult) :=
  match tasks with
  | [] => mret results
  | task :: rest =>
      let task_id := task_id task in
      let messages := task_messages task in
      results ←
        try_except
          (response ← chat_completion_dicts model_id messages max_tokens temperature
                        top_p;
           first ← index0 (resp_choices response);
           mret (results ++
                 [ {| result_id := task_id;
                      result_output := content (choice_message first);
                      result_usage :=
                        {| prompt_tokens := prompt_tokens (resp_usage response);
                           completion_tokens := completion_tokens (resp_usage response);
                           total_tokens := total_tokens (resp_usage response) |};
                      result_error := None |} ]))
          (λ e,
           mret (results ++
                 [ {| result_id := task_id;
                      result_output := "";
                      result_usage :=
                        {| prompt_tokens := 0; completion_tokens := 0;
                           total_tokens := 0 |};
                      result_error := Some (exn_str e) |} ]));
      batch_loop_dicts model_id max_tokens temperature top_p rest results
  end.

Definition batch_chat_completion_dicts (model_id : string) (tasks : list Task)
    (max_tokens : Z) (temperature top_p : float) : IO World (list TaskResult) :=
  batch_loop_dicts model_id max_tokens temperature top_p tasks [].

Fixpoint model_calls_dicts (model_id : string) (max_tokens : Z)
    (temperature top_p : float) (tasks : list Task) (w : World)
    : list (PyExn + ChatCompletionResponse) * World :=
  match tasks with
  | [] => ([], w)
  | task :: rest =>
      let '(r, w') :=
        chat_completion_dicts model_id (task_messages task) max_tokens temperature
          top_p w in
      let '(rs, w'') := model_calls_dicts model_id max_tokens temperature top_p rest w' in
      (r :: rs, w'')
  end.

(** ** The submission endpoint ([app/routers/batch.py]) *)

(** The handler body; the API key has been verified before it runs.  [now]
    is the clock as [submit_batch_job] reads it, [answered_at] the clock as
    the handler reads it again for its answer.  The handler catches nothing:
    on Redis the [TypeError] of [json.dumps], raised in [submit_batch_job]
    before [SET] and [LPUSH], passes through it. *)
Definition submit_batch_generation (request : BatchGenerationRequest)
    (now : Z) (uuid_hex : string) (answered_at : Z) (batch_service : BatchService)
    : (Raised + BatchSubmissionResponse) * BatchService :=
  if negb (is_valid_model model_registry (req_model request)) then
    (inl (RaisedHTTP {| status_code := 400;
                        detail := "Unknown model: " +:+ req_model request |}),
     batch_service)
  else
    let tasks :=
      map (λ task, {| task_id := bt_id task; task_messages := bt_messages task |})
          (req_tasks request) in
    match batch_service, json_dumps_message_objects tasks with
    | WithRedis _, Some e => (inl (RaisedException e), batch_service)
    | _, _ =>
        let '(job_id, batch_service) :=
          submit_batch_job batch_service now uuid_hex
            (req_model request)
            tasks
            (or_default (req_max_tokens request) 512)
            (or_default (req_temperature request) 0.7%float)
            (or_default (req_top_p request) 0.95%float)
            (batch_metadata request) in
        (inr {| sub_job_id := job_id; sub_status := "queued";
                sub_submitted_at := answered_at;
                sub_task_count := Z.of_nat (length (req_tasks request)) |},
         batch_service)
    end.

(** ** The worker ([workers/batch_worker.py]) *)

(** [process_batch_job] up to its [await]: look the job up, give up when it
    is not there, otherwise mark it processing.  The result carries the
    [job_data] that the rest of the coroutine keeps using. *)
Definition process_batch_job_begin (batch_service : BatchService) (now : Z)
    (job_id : string) : option Job * BatchService :=
  match get_job_status batch_service now job_id with
  | None => (None, batch_service)
  | Some job_data =>
      (Some job_data, update_job_status batch_service now job_id "processing" None None)
  end.

(** The model calls for the tasks of a record that the worker got from the
    store: dictionaries from Redis, the stored objects from the fallback. *)
Definition worker_calls (batch_service : BatchService) (model_id : string)
    (max_tokens : Z) (temperature top_p : float) (tasks : list Task) (w : World)
    : list (PyExn + ChatCompletionResponse) * World :=
  match batch_service with
  | WithRedis _ => model_calls_dicts model_id max_tokens temperature top_p tasks w
  | InMemory _ => model_calls model_id max_tokens temperature top_p tasks w
  end.

(** [process_batch_job] from its [await] on: run the tasks, then record the
    outcome at time [now].  [job_data] is what [get_job_status] returned
    when the job was taken in hand. *)
Definition process_batch_job_end (batch_service : BatchService) (now : Z)
    (job_id : string) (job_data : Job) (w : World) : BatchService * World :=
  let returned :=
    match batch_service with
    | WithRedis _ =>
        batch_chat_completion_dicts (model_id job_data) (tasks job_data)
          (max_tokens job_data) (temperature job_data) (top_p job_data) w
    | InMemory _ =>
        batch_chat_completion (model_id job_data) (tasks job_data)
          (max_tokens job_data) (temperature job_data) (top_p job_data) w
    end in
  match returned with
  | (inr results, w') =>
      (update_job_status batch_service now job_id "completed" (Some results) None, w')
  | (inl e, w') =>
      let error_msg := exn_str e in
      (update_job_status batch_service now job_id "failed" None (Some error_msg), w')
  end.

(** One whole run of [process_batch_job], marked processing at [t_start] and
    finished at [t_end]. *)
Definition process_batch_job (batch_service : BatchService) (t_start t_end : Z)
    (job_id : string) (w : World) : BatchService * World :=
  match process_batch_job_begin batch_service t_start job_id with
  | (None, batch_service) => (batch_service, w)
  | (Some job_data, batch_service) =>
      process_batch_job_end batch_service t_end job_id job_data w
  end.

(** One iteration of [worker_loop] up to the [await] inside
    [process_batch_job]: the job taken in hand, if any. *)
Definition worker_poll (batch_service : BatchService) (now : Z)
    : option (string * Job) * BatchService :=
  let '(job_id, batch_service) := get_next_job batch_service in
  match job_id with
  | Some job_id =>
      if truthy job_id then
        match process_batch_job_begin batch_service now job_id with
        | (Some job_data, batch_service) => (Some (job_id, job_data), batch_service)
        | (None, batch_service) => (None, batch_service)
        end
      else (None, batch_service)
  | None => (None, batch_service)
  end.

(** ** The running system *)

(** The store, the outside world, and the jobs that workers hold between
    marking them processing and recording their outcome. *)
Record System := {
  service : BatchService;
  world : World;
  in_flight : list (string * Job)
}.

Definition initial (s : System) : Prop :=
  empty_service (service s) ∧ in_flight s = [].

(** The public operations, interleaved at the points where the coroutines
    yield.  Job ids drawn from [uuid4] do not repeat. *)
Inductive step (s : System) : System → Prop :=
  | step_submit request now uuid_hex answered_at :
      stored (service s) ("batch-" +:+ uuid_hex) = None →
      step s {| service :=
                  (submit_batch_generation request now uuid_hex answered_at
                     (service s)).2;
                world := world s;
                in_flight := in_flight s |}
  | step_status (now : Z) (job_id : string) :
      step s {| service := service s; world := world s; in_flight := in_flight s |}
  | step_poll now :
      step s {| service := (worker_poll (service s) now).2;
                world := world s;
                in_flight :=
                  match (worker_poll (service s) now).1 with
                  | Some job => job :: in_flight s
                  | None => in_flight s
                  end |}
  | step_resume now job_id job_data before after :
      in_flight s = before ++ (job_id, job_data) :: after →
      step s {| service :=
                  (process_batch_job_end (service s) now job_id job_data (world s)).1;
                world :=
                  (process_batch_job_end (service s) now job_id job_data (world s)).2;
                in_flight := before ++ after |}.

Definition reachable (s : System) : Prop :=
  ∃ s0, initial s0 ∧ rtc step s0 s.

(** What holds in every reachable state and carries the proofs below. *)
Record invariant (s : System) : Prop := {
  inv_dict : dict_keys_unique (service s);
  inv_queue_nodup : NoDup (queue_of (service s));
  inv_queue_queued :
    ∀ job_id, job_id ∈ queue_of (service s) →
      ∃ job, stored (service s) job_id = Some job ∧ status job = "queued";
  inv_flight_nodup : NoDup (in_flight s).*1;
  inv_flight_processing :
    ∀ job_id job_data, (job_id, job_data) ∈ in_flight s →
      ∃ job, stored (service s) job_id = Some job ∧ status job = "processing" ∧
             tasks job = tasks job_data;
  inv_records :
    ∀ job_id job, stored (service s) job_id = Some job → record_consistent job
}.

End LLMClient.

Arguments System : clear implicits.

(** ** Results of a batch, task by task *)

(** The result appended for a task whose model call raised [e]. *)
Definition failed_result (task : Task) (e : PyExn) : TaskResult :=
  {| result_id := task_id task;
     result_output := "";
     result_usage := {| prompt_tokens := 0; completion_tokens := 0; total_tokens := 0 |};
     result_error := Some (exn_str e) |}.

(** The result appended for a task, given what its model call answered.
    Reading [choices[0]] of an answer without choices raises inside the
    [try] and is handled like a failed call. *)
Definition outcome_result (task : Task) (outcome : PyExn + ChatCompletionResponse)
    : TaskResult :=
  match outcome with
  | inl e => failed_result task e
  | inr response =>
      match resp_choices response with
      | [] => failed_result task IndexError
      | first :: _ =>
          {| result_id := task_id task;
             result_output := content (choice_message first);
             result_usage :=
               {| prompt_tokens := prompt_tokens (resp_usage response);
                  completion_tokens := completion_tokens (resp_usage response);
                  total_tokens := total_tokens (resp_usage response) |};
             result_error := None |}
      end
  end.

(** ** Sample data *)

Definition example_tasks : list Task :=
  [ {| task_id := "task-1";
       task_messages := [ {| role := "user"; content := "Create a profile." |} ] |};
    {| task_id := "task-2";
       task_messages := [ {| role := "user"; content := "Create a patient." |} ] |} ].

Definition empty_redis : BatchService :=
  WithRedis {| keyspace := ∅; batch_queue := [] |}.

(** One job, submitted at time 1000, on each back end. *)
Definition redis_one_job : BatchService :=
  (submit_batch_job empty_redis 1000 "0123456789ab" "llama-7b" example_tasks
     512 0.7%float 0.95%float None).2.

Definition dict_one_job : BatchService :=
  (submit_batch_job (InMemory []) 1000 "0123456789ab" "llama-7b" example_tasks
     512 0.7%float 0.95%float None).2.

(** A world that counts the model calls made so far; the backend answers
    every call but the second, which raises. *)
Definition sample_create
    : AsyncOpenAI → string → list Message → Z → float → float
      → IO nat BackendResponse :=
  λ _ _ _ _ _ _ calls,
    (if decide (calls = 1%nat) then inl (RuntimeError "connection reset")
     else inr {| br_choices := [ {| bc_content := Some "ok";
                                    bc_finish_reason := Some "stop" |} ];
                 br_usage := Some {| prompt_tokens := 3; completion_tokens := 1;
                                     total_tokens := 4 |} |},
     S calls).

Definition sample_clock : nat → Z := λ _, 1000.
Definition sample_uuid4_hex : nat → string := λ _, "0123456789ab".

Definition sample_settings : Settings := {| openai_api_key := None |}.

Definition sample_registry : ModelConfig :=
  {| models := {[ "llama-7b" := {| model_name := "llama"; backend_type := None;
                                   base_url := None; timeout := None |} ]} |}.

(** A request whose tasks carry no message: what the endpoint can hand to
    Redis. *)
Definition sample_request : BatchGenerationRequest :=
  {| req_model := "llama-7b";
     req_tasks := [ {| bt_id := "a"; bt_messages := [] |};
                    {| bt_id := "b"; bt_messages := [] |};
                    {| bt_id := "c"; bt_messages := [] |} ];
     req_max_tokens := Some 512; req_temperature := None; req_top_p := None;
     batch_metadata := None |}.

(** A request as clients send it: tasks with messages, and two parameters
    given as zero. *)
Definition request_with_messages : BatchGenerationRequest :=
  {| req_model := "llama-7b";
     req_tasks :=
       [ {| bt_id := "task-1";
            bt_messages := [ {| role := "user"; content := "Create a profile." |} ] |};
         {| bt_id := "task-2";
            bt_messages := [ {| role := "user"; content := "Create a patient." |} ] |} ];
     req_max_tokens := Some 0; req_temperature := Some 0%float; req_top_p := None;
     batch_metadata := None |}.

(** A run on Redis: a submission at 1000, a worker taking the job at 2000,
    and the outcome recorded at 3000. *)
Definition run0 : System nat :=
  {| service := empty_redis; world := 0%nat; in_flight := [] |}.

Definition run1 : System nat :=
  {| service :=
       (submit_batch_generation sample_registry sample_request 1000 "0123456789ab"
          1000 (service run0)).2;
     world := world run0;
     in_flight := in_flight run0 |}.

Definition run2 : System nat :=
  {| service := (worker_poll (service run1) 2000).2;
     world := world run1;
     in_flight :=
       match (worker_poll (service run1) 2000).1 with
       | Some job => job :: in_flight run1
       | None => in_flight run1
       end |}.

Definition run2_job : Job :=
  submitted_record 1000 "0123456789ab" "llama-7b"
    [ {| task_id := "a"; task_messages := [] |};
      {| task_id := "b"; task_messages := [] |};
      {| task_id := "c"; task_messages := [] |} ]
    512 0.7%float 0.95%float None.

Definition run3 : System nat :=
  {| service :=
       (process_batch_job_end sample_create sample_clock sample_uuid4_hex
          sample_settings sample_registry (service run2) 3000
          "batch-0123456789ab" run2_job (world run2)).1;
     world :=
       (process_batch_job_end sample_create sample_clock sample_uuid4_hex
          sample_settings sample_registry (service run2) 3000
          "batch-0123456789ab" run2_job (world run2)).2;
     in_flight := [] ++ [] |}.

(** The client, the worker and the system in the sample world. *)
Definition sample_batch_chat_completion :=
  batch_chat_completion sample_create sample_clock sample_uuid4_hex sample_settings
    sample_registry.

Definition sample_process_batch_job :=
  process_batch_job sample_create sample_clock sample_uuid4_hex sample_settings
    sample_registry.

Definition sample_step : System nat → System nat → Prop :=
  step sample_create sample_clock sample_uuid4_hex sample_settings sample_registry.

Definition sample_reachable : System nat → Prop :=
  reachable sample_create sample_clock sample_uuid4_hex sample_settings sample_registry.

(** ** The status endpoint ([app/routers/batch.py]) *)

Record BatchTaskResult := {
  btr_id : string;
  btr_output : string;
  btr_usage : UsageInfo;
  btr_error : option string
}.

Record BatchStatusResponse := {
  bs_job_id : string;
  bs_status : string;
  bs_submitted_at : Z;
  bs_started_at : option Z;
  bs_completed_at : option Z;
  bs_task_count : Z;
  bs_completed_count : Z;
  bs_failed_count : Z;
  bs_results : option (list BatchTaskResult);
  bs_error : option string
}.

(** [Literal["queued", "processing", "completed", "failed"]] *)
Definition status_literal (s : string) : bool :=
  String.eqb s "queued" || String.eqb s "processing" ||
  String.eqb s "completed" || String.eqb s "failed".

(** [job_data['job_id']], under a name of its own because handlers call
    their own argument [job_id]. *)
Definition record_job_id (job_data : Job) : string := job_id job_data.

Definition get_batch_status (batch_service : BatchService) (now : Z) (job_id : string)
    : Raised + BatchStatusResponse :=
  match get_job_status batch_service now job_id with
  | None =>
      inl (RaisedHTTP {| status_code := 404; detail := "Job not found: " +:+ job_id |})
  | Some job_data =>
      let results :=
        if truthy (results job_data) then
          Some (map (λ r, {| btr_id := result_id r;
                             btr_output := result_output r;
                             btr_usage :=
                               {| prompt_tokens := prompt_tokens (result_usage r);
                                  completion_tokens := completion_tokens (result_usage r);
                                  total_tokens := total_tokens (result_usage r) |};
                             btr_error := result_error r |})
                    (default [] (results job_data)))
        else None in
      if status_literal (status job_data) then
        inr {| bs_job_id := record_job_id job_data;
               bs_status := status job_data;
               bs_submitted_at := submitted_at job_data;
               bs_started_at := started_at job_data;
               bs_completed_at := completed_at job_data;
               bs_task_count := task_count job_data;
               bs_completed_count := completed_count job_data;
               bs_failed_count := failed_count job_data;
               bs_results := results;
               bs_error := error job_data |}
      else inl RaisedValidationError
  end.

(** ** The worker loop, run on its own ([workers/batch_worker.py]) *)

(** [get_next_job] called [n] times in a row: what each call returned. *)
Fixpoint dequeue_n (n : nat) (self : BatchService) : list (option string) * BatchService :=
  match n with
  | O => ([], self)
  | S n =>
      let '(job_id, self) := get_next_job self in
      let '(rest, self) := dequeue_n n self in
      (job_id :: rest, self)
  end.

(** The number of records of the dictionary that are queued. *)
Definition queued_count (d : list (string * Job)) : nat :=
  length (List.filter (λ kv, String.eqb (status kv.2) "queued") d).

Section WorkerLoop.
Context {World : Type}.
Variable create :
  AsyncOpenAI → string → list Message → Z → float → float
  → IO World BackendResponse.
Variable clock : World → Z.
Variable uuid4_hex : World → string.
Variable settings : Settings.
Variable model_registry : ModelConfig.

(** One turn of [while True]: a job is taken and processed from beginning to
    end (marked processing at [t_start], finished at [t_end]), or the worker
    sleeps. *)
Definition worker_iteration (batch_service : BatchService) (t_start t_end : Z)
    (w : World) : BatchService * World :=
  let '(job_id, batch_service) := get_next_job batch_service in
  match job_id with
  | Some job_id =>
      if truthy job_id then
        process_batch_job create clock uuid4_hex settings model_registry
          batch_service t_start t_end job_id w
      else (batch_service, w)
  | None => (batch_service, w)
  end.

(** As many turns of the loop as there are pairs of clock readings. *)
Fixpoint worker_loop (times : list (Z * Z)) (batch_service : BatchService) (w : World)
    : BatchService * World :=
  match times with
  | [] => (batch_service, w)
  | (t_start, t_end) :: times =>
      let '(batch_service, w) := worker_iteration batch_service t_start t_end w in
      worker_loop times batch_service w
  end.

End WorkerLoop.

(** The statuses the worker and the submission write. *)
Definition written_status (s : string) : Prop :=
  s = "queued" ∨ s = "processing" ∨ s = "completed".

(** ** Python strings

    A [str] is taken as a sequence of characters below 256; the functions
    work on its list of characters. *)

Definition chars (s : string) : list ascii := String.list_ascii_of_string s.
Definition of_chars (l : list ascii) : string := String.string_of_list_ascii l.

(** [c.isspace()]: tab to carriage return, the four separators 28 to 31,
    the space, and the two spaces 133 and 160 above ASCII. *)
Definition is_space (c : ascii) : bool :=
  let n := nat_of_ascii c in
  ((9 <=? n) && (n <=? 13) || (28 <=? n) && (n <=? 32) || (n =? 133) || (n =? 160))%nat.

Fixpoint lstrip_chars (l : list ascii) : list ascii :=
  match l with
  | [] => []
  | c :: l' => if is_space c then lstrip_chars l' else l
  end.

Definition strip_chars (l : list ascii) : list ascii :=
  reverse (lstrip_chars (reverse (lstrip_chars l))).

(** What [strip] leaves has no space at either end. *)
Definition trimmed (l : list ascii) : Prop :=
  lstrip_chars l = l ∧ lstrip_chars (reverse l) = reverse l.

(** [s.strip()] *)
Definition strip (s : string) : string := of_chars (strip_chars (chars s)).

Fixpoint split_chars (sep : ascii) (l : list ascii) : list (list ascii) :=
  match l with
  | [] => [[]]
  | c :: l' =>
      if decide (c = sep) then [] :: split_chars sep l'
      else match split_chars sep l' with
           | piece :: pieces => (c :: piece) :: pieces
           | [] => [[c]]
           end
  end.

(** [s.split(sep)] for a separator of one character. *)
Definition split (sep : ascii) (s : string) : list string :=
  of_chars <$> split_chars sep (chars s).

(** [sep.join(l)] *)
Fixpoint join (sep : string) (l : list string) : string :=
  match l with
  | [] => ""
  | [s] => s
  | s :: l' => s +:+ sep +:+ join sep l'
  end.

(** [s.startswith(p)], [s.endswith(p)], [len(s)], [s[-n:]], [s[a:-b]] *)
Definition startswith (s p : string) : bool :=
  bool_decide (take (length (chars p)) (chars s) = chars p).

Definition endswith (s p : string) : bool :=
  bool_decide (drop (length (chars s) - length (chars p)) (chars s) = chars p) &&
  bool_decide (length (chars p) ≤ length (chars s))%nat.

Definition len (s : string) : Z := Z.of_nat (length (chars s)).

Definition last_chars (n : nat) (s : string) : string :=
  of_chars (drop (length (chars s) - n) (chars s)).

Definition slice_inner (a b : nat) (s : string) : string :=
  of_chars (drop a (take (length (chars s) - b) (chars s))).

(** ** API keys ([app/config.py], [app/auth.py]) *)

(** [get_api_keys()], with [settings.api_keys] as its argument. *)
Definition get_api_keys (api_keys : string) : list string :=
  if negb (truthy api_keys) then []
  else List.filter (λ key, truthy key) (strip <$> split "," api_keys).

(** A key as [get_api_keys] returns them: not empty, with no space at
    either end and no comma. *)
Definition valid_key (key : string) : Prop :=
  key ≠ "" ∧ strip key = key ∧ ","%char ∉ chars key.

(** The 401 answer with its headers. *)
Record Unauthorized := {
  unauthorized : HTTPException;
  unauthorized_headers : list (string * string)
}.

(** [verify_api_key], with [settings.api_keys] and the bearer token
    [credentials.credentials] as its arguments. *)
Definition verify_api_key (api_keys_setting : string) (token : string)
    : Unauthorized + string :=
  let api_keys := get_api_keys api_keys_setting in
  if negb (truthy api_keys) then inr "dev-mode"
  else if negb (bool_decide (token ∈ api_keys)) then
    inl {| unauthorized := {| status_code := 401; detail := "Invalid API key" |};
           unauthorized_headers := [("WWW-Authenticate", "Bearer")] |}
  else inr token.

Definition get_optional_api_key (api_keys_setting : string) (credentials : option string)
    : option string :=
  match credentials with
  | None => None
  | Some token =>
      let api_keys := get_api_keys api_keys_setting in
      if negb (truthy api_keys) then Some "dev-mode"
      else if bool_decide (token ∈ api_keys) then Some token
      else None
  end.

(** ** Loading the registry ([ModelConfig._load_config]) *)

(** The loop over [self.models] that replaces a [base_url] of the form
    [${VAR}] by the value of the environment variable, or by the empty
    string when the variable is not set. *)
Definition substitute_base_url (getenv : string → option string) (entry : ModelEntry)
    : ModelEntry :=
  match base_url entry with
  | Some url =>
      if startswith url "${" && endswith url "}" then
        let env_var := slice_inner 2 1 url in
        {| model_name := model_name entry;
           backend_type := backend_type entry;
           base_url := Some (default "" (getenv env_var));
           timeout := timeout entry |}
      else entry
  | None => entry
  end.

(** [_load_config] from the point where the file has been parsed:
    [config_models] is [config.get('models', {})]. *)
Definition _load_config (getenv : string → option string)
    (config_models : gmap string ModelEntry) : ModelConfig :=
  {| models := substitute_base_url getenv <$> config_models |}.

(** ** Masking keys in the log ([LoggingService._mask_api_key]) *)

Definition _mask_api_key (api_key : string) : string :=
  if len api_key <=? 4 then "****"
  else "****" +:+ last_chars 4 api_key.

(** ** The chat endpoint ([app/routers/chat.py]) *)

Global Instance truthy_bool : Truthy bool := λ b, b.

Record ChatCompletionRequest := {
  chat_model : string;
  chat_messages : list Message;
  chat_max_tokens : option Z;
  chat_temperature : option float;
  chat_top_p : option float;
  chat_stream : option bool;
  chat_metadata : option (list (string * Json))
}.

Section ChatEndpoint.
Context {World : Type}.
(** The backend call with its [stream] flag; the batch path calls it with
    [stream = False]. *)
Variable create_stream :
  bool → AsyncOpenAI → string → list Message → Z → float → float
  → IO World BackendResponse.
Variable clock : World → Z.
Variable uuid4_hex : World → string.
Variable settings : Settings.
Variable model_registry : ModelConfig.
(** [model_registry.list_models().keys()], in the order of the file. *)
Variable listed_models : list string.

(** The handler body; the API key has been verified before it runs. *)
Definition create_chat_completion (request : ChatCompletionRequest) (w : World)
    : (HTTPException + ChatCompletionResponse) * World :=
  if negb (is_valid_model model_registry (chat_model request)) then
    (inl {| status_code := 400;
            detail := "Unknown model: " +:+ chat_model request +:+
                      ". Available models: " +:+ join ", " listed_models |},
     w)
  else
    match chat_completion
            (create_stream (or_default (chat_stream request) false))
            clock uuid4_hex settings model_registry
            (chat_model request) (chat_messages request)
            (or_default (chat_max_tokens request) 512)
            (or_default (chat_temperature request) 0.7%float)
            (or_default (chat_top_p request) 0.95%float) w with
    | (inr response, w') => (inr response, w')
    | (inl e, w') =>
        (inl {| status_code := 500;
                detail := "Error generating completion: " +:+ exn_str e |},
         w')
    end.

End ChatEndpoint.

(** * Properties *)

(** ** Dictionaries, Redis keys and truth values *)

Lemma dict_get_set_eq d k v : dict_get (dict_set d k v) k = Some v.
Proof.
  induction d as [|[k' v'] d IH]; simpl.
  - by rewrite decide_True.
  - destruct (decide (k' = k)) as [->|Hne]; simpl.
    + by rewrite decide_True.
    + by rewrite decide_False.
Qed.

Lemma dict_get_set_ne d k k' v : k ≠ k' → dict_get (dict_set d k v) k' = dict_get d k'.
Proof.
  intros Hne. induction d as [|[k0 v0] d IH]; simpl.
  - by rewrite decide_False.
  - destruct (decide (k0 = k)) as [->|Hk]; simpl.
    + by rewrite !decide_False.
    + destruct (decide (k0 = k')); [done | exact IH].
Qed.

Lemma job_key_inj a b : "job:" +:+ a = "job:" +:+ b → a = b.
Proof. simpl. intros H. by simplify_eq. Qed.

Lemma redis_get_set_eq db now name v ex t :
  redis_get (redis_set db now name v ex) t name =
  if t <=? now + ex then Some v else None.
Proof. unfold redis_get, redis_set; simpl. by rewrite lookup_insert_eq. Qed.

Lemma redis_get_set_ne db now name name' v ex t :
  name ≠ name' →
  redis_get (redis_set db now name v ex) t name' = redis_get db t name'.
Proof.
  intros Hne. unfold redis_get, redis_set; simpl. by rewrite lookup_insert_ne.
Qed.

Lemma sum_ones_split {A} (p : A → bool) (l : list A) :
  sum_ones (λ r, negb (p r)) l + sum_ones p l = Z.of_nat (length l).
Proof.
  induction l as [|x l IH]; [done|].
  cbn [sum_ones foldr length] in *. fold (sum_ones p l) in *.
  fold (sum_ones (λ r, negb (p r)) l) in *.
  destruct (p x); simpl negb; cbv iota; lia.
Qed.

(** ** The write and the lookup *)

Lemma update_job_status_eq self now job_id st res err :
  update_job_status self now job_id st res err =
  match get_job_status self now job_id with
  | None => self
  | Some job_data =>
      write_record self now job_id (updated_record job_data now st res err)
  end.
Proof.
  unfold update_job_status. destruct (get_job_status _ _ _); [|done].
  by destruct self.
Qed.

(** A record is served from its write until the end of its time to live,
    and on Redis it is gone after that. *)
Lemma get_write_record_eq self now job_id job_data t :
  served self now t = true →
  get_job_status (write_record self now job_id job_data) t job_id = Some job_data.
Proof.
  destruct self as [db|jobs]; simpl.
  - intros Hserved. rewrite redis_get_set_eq.
    destruct (t <=? now + retention) eqn:Hle; [done|]. lia.
  - intros _. apply dict_get_set_eq.
Qed.

Lemma get_write_record_expired db now job_id job_data t :
  now + retention < t →
  get_job_status (write_record (WithRedis db) now job_id job_data) t job_id = None.
Proof.
  intros Hpast. simpl. rewrite redis_get_set_eq.
  destruct (t <=? now + retention) eqn:Hle; [lia | done].
Qed.

Lemma get_write_record_ne self now job_id job_id' job_data t :
  job_id ≠ job_id' →
  get_job_status (write_record self now job_id job_data) t job_id' =
  get_job_status self t job_id'.
Proof.
  intros Hne. destruct self as [db|jobs]; simpl.
  - apply redis_get_set_ne. intros H. by apply job_key_inj in H.
  - by apply dict_get_set_ne.
Qed.

(** An update of one job leaves what is served for the others. *)
Lemma update_job_status_other self now job_id job_id' st res err t :
  job_id ≠ job_id' →
  get_job_status (update_job_status self now job_id st res err) t job_id' =
  get_job_status self t job_id'.
Proof.
  intros Hne. rewrite update_job_status_eq.
  destruct (get_job_status self now job_id); [|done].
  by apply get_write_record_ne.
Qed.

Lemma served_now self now : served self now now = true.
Proof. destruct self; [|done]. simpl. unfold retention. lia. Qed.

Lemma stored_write_record_eq self now job_id job_data :
  stored (write_record self now job_id job_data) job_id = Some job_data.
Proof.
  destruct self as [db|jobs]; simpl.
  - by rewrite lookup_insert_eq.
  - apply dict_get_set_eq.
Qed.

Lemma stored_write_record_ne self now job_id job_id' job_data :
  job_id ≠ job_id' →
  stored (write_record self now job_id job_data) job_id' = stored self job_id'.
Proof.
  intros Hne. destruct self as [db|jobs]; simpl.
  - rewrite lookup_insert_ne; [done|]. intros H. by apply job_key_inj in H.
  - by apply dict_get_set_ne.
Qed.

(** What is served is what is stored. *)
Lemma get_job_status_stored self now job_id job_data :
  get_job_status self now job_id = Some job_data → stored self job_id = Some job_data.
Proof.
  destruct self as [db|jobs]; simpl; [|done].
  unfold redis_get. destruct (keyspace db !! _) as [[v e]|]; [|done].
  simpl. destruct (now <=? e); congruence.
Qed.

(** ** The fields of an updated record *)

(** Every field of an updated record is read off by running through the
    four conditions of [update_job_status]. *)
Ltac updated_record_field j st res err :=
  unfold updated_record; simpl;
  destruct (String.eqb st "processing" && negb (truthy (started_at j)));
  destruct (String.eqb st "completed" || String.eqb st "failed");
  destruct res as [[|? ?]|]; destruct (truthy err); done.

Lemma updated_record_status j now st res err :
  status (updated_record j now st res err) = st.
Proof. updated_record_field j st res err. Qed.

Lemma updated_record_started_at j now st res err :
  started_at (updated_record j now st res err) =
  if String.eqb st "processing" && negb (truthy (started_at j))
  then Some now else started_at j.
Proof. updated_record_field j st res err. Qed.

Lemma updated_record_completed_at j now st res err :
  completed_at (updated_record j now st res err) =
  if String.eqb st "completed" || String.eqb st "failed"
  then Some now else completed_at j.
Proof. updated_record_field j st res err. Qed.

Lemma updated_record_results j now st res err :
  results (updated_record j now st res err) =
  if truthy res then res else results j.
Proof. updated_record_field j st res err. Qed.

Lemma updated_record_completed_count j now st res err :
  completed_count (updated_record j now st res err) =
  match res with
  | Some rs =>
      if truthy rs then sum_ones (λ r, negb (truthy (result_error r))) rs
      else completed_count j
  | None => completed_count j
  end.
Proof. updated_record_field j st res err. Qed.

Lemma updated_record_failed_count j now st res err :
  failed_count (updated_record j now st res err) =
  match res with
  | Some rs =>
      if truthy rs then sum_ones (λ r, truthy (result_error r)) rs
      else failed_count j
  | None => failed_count j
  end.
Proof. updated_record_field j st res err. Qed.

Lemma updated_record_error j now st res err :
  error (updated_record j now st res err) = if truthy err then err else error j.
Proof. updated_record_field j st res err. Qed.

Lemma updated_record_tasks j now st res err :
  tasks (updated_record j now st res err) = tasks j ∧
  task_count (updated_record j now st res err) = task_count j.
Proof. updated_record_field j st res err. Qed.

Lemma submit_batch_job_id self now uuid_hex m ts mt temp tp md :
  (submit_batch_job self now uuid_hex m ts mt temp tp md).1 = "batch-" +:+ uuid_hex.
Proof. by destruct self. Qed.

(** For the lookups, a submission is the write of the submitted record. *)
Lemma get_submit_batch_job_write self now uuid_hex m ts mt temp tp md t job_id :
  get_job_status (submit_batch_job self now uuid_hex m ts mt temp tp md).2 t job_id =
  get_job_status
    (write_record self now ("batch-" +:+ uuid_hex)
       (submitted_record now uuid_hex m ts mt temp tp md)) t job_id.
Proof. by destruct self. Qed.

Lemma get_submit_batch_job self now uuid_hex m ts mt temp tp md t :
  served self now t = true →
  get_job_status (submit_batch_job self now uuid_hex m ts mt temp tp md).2 t
    ("batch-" +:+ uuid_hex) =
  Some (submitted_record now uuid_hex m ts mt temp tp md).
Proof.
  intros Hserved. rewrite get_submit_batch_job_write. by apply get_write_record_eq.
Qed.

Lemma stored_submit_batch_job self now uuid_hex m ts mt temp tp md job_id :
  stored (submit_batch_job self now uuid_hex m ts mt temp tp md).2 job_id =
  if decide ("batch-" +:+ uuid_hex = job_id)
  then Some (submitted_record now uuid_hex m ts mt temp tp md)
  else stored self job_id.
Proof.
  destruct self as [db|jobs]; cbn -[String.append].
  - case_decide as Hk.
    + subst. by rewrite lookup_insert_eq.
    + rewrite lookup_insert_ne; [done|]. intros H. by apply job_key_inj in H.
  - case_decide as Hk.
    + subst. apply dict_get_set_eq.
    + by apply dict_get_set_ne.
Qed.

(** ** Updates of single records *)

(** C7.  An update of a job that the store does not serve (never created, or
    expired) changes nothing: the call returns with the store as it was. *)
Theorem update_job_status_absent self now job_id st res err :
  get_job_status self now job_id = None →
  update_job_status self now job_id st res err = self.
Proof. intros Hget. unfold update_job_status. by rewrite Hget. Qed.

Lemma update_job_status_absent_witness :
  get_job_status redis_one_job (1000 + 86400 + 1) "batch-0123456789ab" = None ∧
  update_job_status redis_one_job (1000 + 86400 + 1) "batch-0123456789ab" "completed"
    (Some []) (Some "late") = redis_one_job.
Proof.
  assert (H : get_job_status redis_one_job (1000 + 86400 + 1) "batch-0123456789ab"
              = None)
    by (vm_compute; reflexivity).
  split; [exact H | exact (update_job_status_absent _ _ _ _ _ _ H)].
Defined.

(** C10.  Every update to [completed] or [failed] of a job that is served
    sets [completed_at] to the time of that update, whatever [completed_at]
    was before. *)
Theorem terminal_update_sets_completed_at self now job_id st res err job_data :
  get_job_status self now job_id = Some job_data →
  st = "completed" ∨ st = "failed" →
  ∃ job_data',
    get_job_status (update_job_status self now job_id st res err) now job_id
      = Some job_data' ∧
    completed_at job_data' = Some now.
Proof.
  intros Hget Hst. rewrite update_job_status_eq, Hget.
  rewrite get_write_record_eq by apply served_now.
  eexists; split; [done|].
  rewrite updated_record_completed_at. by destruct Hst as [-> | ->].
Qed.

Lemma terminal_update_sets_completed_at_witness :
  ∃ job_data',
    get_job_status
      (update_job_status
         (update_job_status redis_one_job 2000 "batch-0123456789ab" "completed" None None)
         3000 "batch-0123456789ab" "failed" None (Some "boom"))
      3000 "batch-0123456789ab" = Some job_data' ∧
    completed_at job_data' = Some 3000.
Proof.
  eapply terminal_update_sets_completed_at.
  - vm_compute. reflexivity.
  - right. reflexivity.
Defined.

(** C4.  After a first update to [processing] of a served job, made at a
    non-zero clock reading, the record has its [started_at], and a second
    update to [processing], at any time, leaves [started_at] as it is:
    in the record kept by the store and in every record served later. *)
Theorem mark_processing_twice_keeps_started_at self t1 t2 job_id job_data :
  get_job_status self t1 job_id = Some job_data →
  t1 ≠ 0 →
  let once := update_job_status self t1 job_id "processing" None None in
  let twice := update_job_status once t2 job_id "processing" None None in
  ∃ job1 job2,
    stored once job_id = Some job1 ∧
    stored twice job_id = Some job2 ∧
    started_at job1 ≠ None ∧
    started_at job2 = started_at job1 ∧
    ∀ t job,
      get_job_status twice t job_id = Some job → started_at job = started_at job1.
Proof.
  intros Hget Ht1 once twice.
  set (job1 := updated_record job_data t1 "processing" None None).
  assert (Honce : once = write_record self t1 job_id job1).
  { unfold once. by rewrite update_job_status_eq, Hget. }
  assert (Hs1 : stored once job_id = Some job1).
  { rewrite Honce. apply stored_write_record_eq. }
  assert (Htruthy : truthy (started_at job1) = true).
  { unfold job1. rewrite updated_record_started_at. simpl.
    destruct (truthy (started_at job_data)) eqn:E; simpl; [done|].
    unfold truthy, truthy_Z. by apply negb_true_iff, Z.eqb_neq. }
  assert (Hset : started_at job1 ≠ None).
  { intros E. by rewrite E in Htruthy. }
  assert (Hs2 : ∃ job2,
             stored twice job_id = Some job2 ∧ started_at job2 = started_at job1).
  { unfold twice. rewrite update_job_status_eq.
    destruct (get_job_status once t2 job_id) as [j|] eqn:Hget2.
    - apply get_job_status_stored in Hget2. rewrite Hs1 in Hget2.
      injection Hget2 as <-.
      eexists. split; [apply stored_write_record_eq|].
      rewrite updated_record_started_at, Htruthy. done.
    - by exists job1. }
  destruct Hs2 as (job2 & Hs2 & Heq).
  exists job1, job2. repeat split; try done.
  intros t job Hserved. apply get_job_status_stored in Hserved.
  rewrite Hs2 in Hserved. by injection Hserved as <-.
Qed.

Lemma mark_processing_twice_keeps_started_at_witness :
  let once := update_job_status dict_one_job 2000 "batch-0123456789ab" "processing"
                None None in
  let twice := update_job_status once 3000 "batch-0123456789ab" "processing" None None in
  ∃ job1 job2,
    stored once "batch-0123456789ab" = Some job1 ∧
    stored twice "batch-0123456789ab" = Some job2 ∧
    started_at job1 ≠ None ∧
    started_at job2 = started_at job1 ∧
    ∀ t job, get_job_status twice t "batch-0123456789ab" = Some job →
             started_at job = started_at job1.
Proof.
  eapply (mark_processing_twice_keeps_started_at dict_one_job 2000 3000).
  - vm_compute. reflexivity.
  - lia.
Defined.

(** At clock reading 0 the first update stores [started_at = 0], which
    [not job_data['started_at']] takes for unset: the second update then
    writes its own time. *)
Example started_at_zero_is_taken_for_unset :
  let once := update_job_status dict_one_job 0 "batch-0123456789ab" "processing"
                None None in
  let twice := update_job_status once 3000 "batch-0123456789ab" "processing" None None in
  (started_at <$> stored once "batch-0123456789ab") = Some (Some 0) ∧
  (started_at <$> stored twice "batch-0123456789ab") = Some (Some 3000).
Proof. vm_compute. done. Qed.

(** C9.  An update of a served job whose [results] argument is absent or the
    empty list leaves [results], [completed_count] and [failed_count] as they
    were.  In particular the failing update (status [failed], a non-empty
    error message, no results) sets [status], [error] and [completed_at], and
    [results] stays null when it was null. *)
Theorem update_without_results_keeps_results self now job_id st res err job_data :
  get_job_status self now job_id = Some job_data →
  res = None ∨ res = Some [] →
  ∃ job_data',
    get_job_status (update_job_status self now job_id st res err) now job_id
      = Some job_data' ∧
    results job_data' = results job_data ∧
    completed_count job_data' = completed_count job_data ∧
    failed_count job_data' = failed_count job_data ∧
    (∀ msg, st = "failed" → err = Some msg → msg ≠ "" →
       status job_data' = "failed" ∧
       error job_data' = Some msg ∧
       completed_at job_data' = Some now ∧
       (results job_data = None → results job_data' = None)).
Proof.
  intros Hget Hres. rewrite update_job_status_eq, Hget.
  rewrite get_write_record_eq by apply served_now.
  eexists; split; [done|].
  rewrite updated_record_results, updated_record_completed_count,
    updated_record_failed_count.
  assert (Hfalsy : truthy res = false) by (by destruct Hres as [-> | ->]).
  rewrite Hfalsy.
  split; [done|]. split; [by destruct Hres as [-> | ->]|].
  split; [by destruct Hres as [-> | ->]|].
  intros msg -> -> Hmsg.
  rewrite updated_record_status, updated_record_error, updated_record_completed_at.
  assert (Ht : truthy (Some msg) = true) by (by destruct msg).
  rewrite Ht. simpl. by repeat split.
Qed.

Lemma update_without_results_keeps_results_witness :
  ∃ job_data',
    get_job_status
      (update_job_status redis_one_job 2000 "batch-0123456789ab" "failed" None
         (Some "backend unreachable"))
      2000 "batch-0123456789ab" = Some job_data' ∧
    results job_data' = None ∧
    completed_count job_data' = 0 ∧
    failed_count job_data' = 0 ∧
    status job_data' = "failed" ∧
    error job_data' = Some "backend unreachable" ∧
    completed_at job_data' = Some 2000.
Proof.
  destruct (update_without_results_keeps_results redis_one_job 2000
              "batch-0123456789ab" "failed" None (Some "backend unreachable")
              (submitted_record 1000 "0123456789ab" "llama-7b" example_tasks
                 512 0.7%float 0.95%float None))
    as (job_data' & Hget & Hres & Hcc & Hfc & Hfail).
  - vm_compute. reflexivity.
  - left. reflexivity.
  - destruct (Hfail "backend unreachable") as (Hst & Herr & Hat & Hnull); try done.
    exists job_data'. by repeat split.
Defined.

(** ** Submission and lookup *)

(** C6.  A lookup of the job id that [submit_batch_job] returned, made on the
    store as the submission left it and while the record is served (on Redis:
    before its time to live has run out), returns the queued record:
    [task_count] is the number of submitted tasks, [results] is null, both
    counts are zero, and [started_at], [completed_at] and [error] are null. *)
Theorem status_after_submit self now uuid_hex model_id tasks max_tokens temperature top_p
    metadata t :
  served self now t = true →
  let submitted :=
    submit_batch_job self now uuid_hex model_id tasks max_tokens temperature top_p
      metadata in
  ∃ job_data,
    get_job_status submitted.2 t submitted.1 = Some job_data ∧
    job_id job_data = submitted.1 ∧
    status job_data = "queued" ∧
    task_count job_data = Z.of_nat (length tasks) ∧
    results job_data = None ∧
    completed_count job_data = 0 ∧
    failed_count job_data = 0 ∧
    started_at job_data = None ∧
    completed_at job_data = None ∧
    error job_data = None.
Proof.
  intros Hserved submitted. unfold submitted.
  rewrite submit_batch_job_id, get_submit_batch_job by done.
  eexists. split; [done|]. by repeat split.
Qed.

Lemma status_after_submit_witness :
  served empty_redis 1000 1001 = true ∧
  ∃ job_data,
    get_job_status redis_one_job 1001 "batch-0123456789ab" = Some job_data ∧
    job_id job_data = "batch-0123456789ab" ∧
    status job_data = "queued" ∧
    task_count job_data = 2 ∧
    results job_data = None ∧
    completed_count job_data = 0 ∧
    failed_count job_data = 0 ∧
    started_at job_data = None ∧
    completed_at job_data = None ∧
    error job_data = None.
Proof.
  split; [reflexivity|].
  apply (status_after_submit empty_redis 1000 "0123456789ab" "llama-7b" example_tasks
           512 0.7%float 0.95%float None 1001).
  reflexivity.
Defined.

(** ** Retention *)

(** C8, as the claim has it, on the fallback store: a record written at time
    1000 is still returned twice the retention period later. *)
Lemma in_memory_record_outlives_retention :
  get_job_status dict_one_job (1000 + 2 * 86400) "batch-0123456789ab" ≠ None.
Proof. vm_compute. discriminate. Qed.

(** C8, amended.  On Redis every write of a job record (the submission, and
    every update that finds the record) starts the record's time to live
    anew, [retention] = 86400 seconds from that write, whatever was left of
    an earlier one: a lookup before the end of that time returns the record
    just written, a lookup past it returns not-found.  On the dictionary
    fallback no write sets an expiry and every later lookup returns the
    record just written. *)
Theorem write_sets_expiry self now uuid_hex model_id tasks max_tokens temperature top_p
    metadata job_id st res err :
  let submitted :=
    submit_batch_job self now uuid_hex model_id tasks max_tokens temperature top_p
      metadata in
  let record :=
    submitted_record now uuid_hex model_id tasks max_tokens temperature top_p
      metadata in
  retention = 86400 ∧
  (∀ t,
     match self with
     | WithRedis _ =>
         (t < now + retention →
          get_job_status submitted.2 t submitted.1 = Some record) ∧
         (now + retention < t →
          get_job_status submitted.2 t submitted.1 = None)
     | InMemory _ => get_job_status submitted.2 t submitted.1 = Some record
     end) ∧
  (∀ job_data t,
     get_job_status self now job_id = Some job_data →
     let updated := update_job_status self now job_id st res err in
     match self with
     | WithRedis _ =>
         (t < now + retention →
          get_job_status updated t job_id =
            Some (updated_record job_data now st res err)) ∧
         (now + retention < t → get_job_status updated t job_id = None)
     | InMemory _ =>
         get_job_status updated t job_id =
           Some (updated_record job_data now st res err)
     end).
Proof.
  intros submitted record. unfold submitted, record. split; [done|]. split.
  - intros t. rewrite submit_batch_job_id, get_submit_batch_job_write.
    destruct self as [db|jobs].
    + split; intros Ht.
      * apply get_write_record_eq. simpl. lia.
      * by apply get_write_record_expired.
    + by apply get_write_record_eq.
  - intros job_data t Hget. rewrite update_job_status_eq, Hget.
    destruct self as [db|jobs].
    + split; intros Ht.
      * apply get_write_record_eq. simpl. lia.
      * by apply get_write_record_expired.
    + by apply get_write_record_eq.
Qed.

(** A record submitted at 1000 and updated at 50000: the update starts the
    time to live anew, so the record is still served after the first window
    has run out, and is gone after the second has. *)
Lemma write_sets_expiry_witness :
  let updated :=
    update_job_status redis_one_job 50000 "batch-0123456789ab" "processing" None None in
  get_job_status redis_one_job (1000 + 86400 - 1) "batch-0123456789ab" ≠ None ∧
  get_job_status redis_one_job (1000 + 86400 + 1) "batch-0123456789ab" = None ∧
  get_job_status updated (1000 + 86400 + 1) "batch-0123456789ab" ≠ None ∧
  get_job_status updated (50000 + 86400 + 1) "batch-0123456789ab" = None.
Proof.
  intros updated.
  pose proof (write_sets_expiry empty_redis 1000 "0123456789ab" "llama-7b"
                example_tasks 512 0.7%float 0.95%float None
                "batch-0123456789ab" "processing" None None) as (_ & Hsub & _).
  pose proof (write_sets_expiry redis_one_job 50000 "ba9876543210" "llama-7b"
                example_tasks 512 0.7%float 0.95%float None
                "batch-0123456789ab" "processing" None None) as (_ & _ & Hupd).
  assert (Hget : get_job_status redis_one_job 50000 "batch-0123456789ab" =
                 Some (submitted_record 1000 "0123456789ab" "llama-7b" example_tasks
                         512 0.7%float 0.95%float None))
    by (vm_compute; reflexivity).
  destruct (Hsub (1000 + 86400 - 1)) as [Hserved _].
  destruct (Hsub (1000 + 86400 + 1)) as [_ Hgone].
  destruct (Hupd _ (1000 + 86400 + 1) Hget) as [Hserved' _].
  destruct (Hupd _ (50000 + 86400 + 1) Hget) as [_ Hgone'].
  specialize (Hserved eq_refl). specialize (Hgone eq_refl).
  specialize (Hserved' eq_refl). specialize (Hgone' eq_refl).
  split.
  { intros Hnone. assert (H := eq_trans (eq_sym Hserved) Hnone). discriminate H. }
  split; [exact Hgone|].
  split; [|exact Hgone'].
  intros Hnone. assert (H := eq_trans (eq_sym Hserved') Hnone). discriminate H.
Defined.

(** ** Validation at the endpoint *)

(** C5.  A submission whose model is not in the registry is answered with
    the 400 error and nothing else happens: the service (store and queue) is
    returned as it was given, and the answer carries no job id.  The check
    is the endpoint's, made before it calls [submit_batch_job]. *)
Theorem unknown_model_is_rejected model_registry request now uuid_hex answered_at
    batch_service :
  models model_registry !! req_model request = None →
  submit_batch_generation model_registry request now uuid_hex answered_at batch_service =
  (inl (RaisedHTTP {| status_code := 400;
                      detail := "Unknown model: " +:+ req_model request |}),
   batch_service).
Proof.
  intros Hnone. unfold submit_batch_generation, is_valid_model.
  rewrite Hnone. rewrite bool_decide_false; [done|]. by intros [? ?].
Qed.

Lemma unknown_model_is_rejected_witness :
  let request :=
    {| req_model := "nonexistent-model";
       req_tasks := [ {| bt_id := "task-1"; bt_messages := [] |} ];
       req_max_tokens := Some 512; req_temperature := None; req_top_p := None;
       batch_metadata := None |} in
  submit_batch_generation {| models := ∅ |} request 1000 "0123456789ab" 1000
    redis_one_job =
  (inl (RaisedHTTP {| status_code := 400;
                      detail := "Unknown model: nonexistent-model" |}),
   redis_one_job).
Proof.
  intros request.
  apply (unknown_model_is_rejected {| models := ∅ |} request 1000 "0123456789ab" 1000
           redis_one_job).
  reflexivity.
Defined.

(** What the endpoint does to the service: nothing, or what
    [submit_batch_job] does with the tasks and the defaults of the request. *)
Lemma submit_batch_generation_service model_registry request now uuid_hex answered_at
    batch_service :
  (submit_batch_generation model_registry request now uuid_hex answered_at
     batch_service).2 = batch_service ∨
  (submit_batch_generation model_registry request now uuid_hex answered_at
     batch_service).2 =
  (submit_batch_job batch_service now uuid_hex (req_model request)
     (map (λ task, {| task_id := bt_id task; task_messages := bt_messages task |})
          (req_tasks request))
     (or_default (req_max_tokens request) 512)
     (or_default (req_temperature request) 0.7%float)
     (or_default (req_top_p request) 0.95%float)
     (batch_metadata request)).2.
Proof.
  unfold submit_batch_generation.
  destruct (negb (is_valid_model model_registry (req_model request))); [by left|].
  destruct batch_service as [db|jobs].
  - destruct (json_dumps_message_objects _); [by left|].
    right. by destruct (submit_batch_job _ _ _ _ _ _ _ _ _).
  - right. by destruct (submit_batch_job _ _ _ _ _ _ _ _ _).
Qed.

(** An answer of the endpoint carries the id and the number of tasks of the
    job that [submit_batch_job] has stored, and the clock as the handler read
    it for the answer. *)
Lemma submit_batch_generation_answered model_registry request now uuid_hex answered_at
    batch_service response :
  (submit_batch_generation model_registry request now uuid_hex answered_at
     batch_service).1 = inr response →
  response =
    {| sub_job_id := "batch-" +:+ uuid_hex; sub_status := "queued";
       sub_submitted_at := answered_at;
       sub_task_count := Z.of_nat (length (req_tasks request)) |} ∧
  (submit_batch_generation model_registry request now uuid_hex answered_at
     batch_service).2 =
  (submit_batch_job batch_service now uuid_hex (req_model request)
     (map (λ task, {| task_id := bt_id task; task_messages := bt_messages task |})
          (req_tasks request))
     (or_default (req_max_tokens request) 512)
     (or_default (req_temperature request) 0.7%float)
     (or_default (req_top_p request) 0.95%float)
     (batch_metadata request)).2.
Proof.
  unfold submit_batch_generation.
  destruct (negb (is_valid_model model_registry (req_model request))); [done|].
  set (submitted := submit_batch_job _ _ _ _ _ _ _ _ _).
  assert (Hid : submitted.1 = "batch-" +:+ uuid_hex) by apply submit_batch_job_id.
  destruct batch_service as [db|jobs].
  - destruct (json_dumps_message_objects _); [done|].
    destruct submitted as [jid svc]. cbn [fst snd] in *. intros [= <-]. by subst jid.
  - destruct submitted as [jid svc]. cbn [fst snd] in *. intros [= <-]. by subst jid.
Qed.

(** ** The task executor *)

Section Executor.
Context {World : Type}.
Variable create :
  AsyncOpenAI → string → list Message → Z → float → float
  → IO World BackendResponse.
Variable clock : World → Z.
Variable uuid4_hex : World → string.
Variable settings : Settings.
Variable model_registry : ModelConfig.

(** The client's functions with this world plugged in. *)
Local Abbreviation run_chat :=
  (chat_completion create clock uuid4_hex settings model_registry).
Local Abbreviation run_loop :=
  (batch_loop create clock uuid4_hex settings model_registry).
Local Abbreviation run_batch :=
  (batch_chat_completion create clock uuid4_hex settings model_registry).
Local Abbreviation run_calls :=
  (model_calls create clock uuid4_hex settings model_registry).

Lemma model_calls_length model_id mt temp tp tasks w :
  length (run_calls model_id mt temp tp tasks w).1 = length tasks.
Proof.
  revert w. induction tasks as [|task rest IH]; intros w; [done|].
  cbn [model_calls].
  destruct (run_chat _ _ _ _ _ w) as [r w'].
  specialize (IH w').
  destruct (run_calls model_id mt temp tp rest w') as [rs w'']. simpl in *.
  by rewrite IH.
Qed.

(** The loop appends, to the results it starts with, one result per task,
    made from the answer of that task's call. *)
Lemma batch_loop_eq model_id mt temp tp tasks acc w :
  run_loop model_id mt temp tp tasks acc w =
  (inr (acc ++ zip_with outcome_result tasks (run_calls model_id mt temp tp tasks w).1),
   (run_calls model_id mt temp tp tasks w).2).
Proof.
  revert acc w. induction tasks as [|task rest IH]; intros acc w.
  - simpl. by rewrite app_nil_r.
  - cbn [batch_loop model_calls].
    unfold mbind, io_bind, try_except at 1.
    unfold mbind, io_bind.
    destruct (run_chat model_id (task_messages task) mt temp tp w)
      as [[e|response] w'] eqn:Hcall.
    + unfold mret, io_ret. rewrite IH.
      destruct (run_calls model_id mt temp tp rest w') as [rs w''].
      simpl. by rewrite <- app_assoc.
    + destruct (resp_choices response) as [|first others] eqn:Hch.
      * unfold index0, raise, mret, io_ret. rewrite IH.
        destruct (run_calls model_id mt temp tp rest w') as [rs w''].
        simpl. rewrite Hch. by rewrite <- app_assoc.
      * unfold index0, mret, io_ret. rewrite IH.
        destruct (run_calls model_id mt temp tp rest w') as [rs w''].
        simpl. rewrite Hch. by rewrite <- app_assoc.
Qed.

Lemma batch_chat_completion_eq model_id tasks mt temp tp w :
  run_batch model_id tasks mt temp tp w =
  (inr (zip_with outcome_result tasks (run_calls model_id mt temp tp tasks w).1),
   (run_calls model_id mt temp tp tasks w).2).
Proof. unfold batch_chat_completion. by rewrite batch_loop_eq. Qed.

(** The same for tasks read back from Redis. *)
Lemma model_calls_dicts_length model_id mt temp tp tasks w :
  length (model_calls_dicts create clock uuid4_hex settings model_registry
            model_id mt temp tp tasks w).1 = length tasks.
Proof.
  revert w. induction tasks as [|task rest IH]; intros w; [done|].
  cbn [model_calls_dicts].
  destruct (chat_completion_dicts _ _ _ _ _ _ _ _ _ _ w) as [r w'].
  specialize (IH w').
  destruct (model_calls_dicts _ _ _ _ _ model_id mt temp tp rest w') as [rs w''].
  simpl in *. by rewrite IH.
Qed.

Lemma batch_loop_dicts_eq model_id mt temp tp tasks acc w :
  let calls :=
    model_calls_dicts create clock uuid4_hex settings model_registry
      model_id mt temp tp tasks w in
  batch_loop_dicts create clock uuid4_hex settings model_registry
    model_id mt temp tp tasks acc w =
  (inr (acc ++ zip_with outcome_result tasks calls.1), calls.2).
Proof.
  revert acc w. induction tasks as [|task rest IH]; intros acc w.
  - simpl. by rewrite app_nil_r.
  - cbn [batch_loop_dicts model_calls_dicts].
    unfold mbind, io_bind, try_except at 1.
    unfold mbind, io_bind.
    destruct (chat_completion_dicts _ _ _ _ _ model_id (task_messages task) mt temp tp w)
      as [[e|response] w'] eqn:Hcall.
    + unfold mret, io_ret. rewrite IH.
      destruct (model_calls_dicts _ _ _ _ _ model_id mt temp tp rest w') as [rs w''].
      simpl. by rewrite <- app_assoc.
    + destruct (resp_choices response) as [|first others] eqn:Hch.
      * unfold index0, raise, mret, io_ret. rewrite IH.
        destruct (model_calls_dicts _ _ _ _ _ model_id mt temp tp rest w') as [rs w''].
        simpl. rewrite Hch. by rewrite <- app_assoc.
      * unfold index0, mret, io_ret. rewrite IH.
        destruct (model_calls_dicts _ _ _ _ _ model_id mt temp tp rest w') as [rs w''].
        simpl. rewrite Hch. by rewrite <- app_assoc.
Qed.

Lemma batch_chat_completion_dicts_eq model_id tasks mt temp tp w :
  let calls :=
    model_calls_dicts create clock uuid4_hex settings model_registry
      model_id mt temp tp tasks w in
  batch_chat_completion_dicts create clock uuid4_hex settings model_registry
    model_id tasks mt temp tp w =
  (inr (zip_with outcome_result tasks calls.1), calls.2).
Proof.
  intros calls. unfold batch_chat_completion_dicts, calls.
  by rewrite batch_loop_dicts_eq.
Qed.

Lemma worker_calls_length self model_id mt temp tp tasks w :
  length (worker_calls create clock uuid4_hex settings model_registry
            self model_id mt temp tp tasks w).1 = length tasks.
Proof.
  destruct self; [apply model_calls_dicts_length | apply model_calls_length].
Qed.

(** An update does not turn one kind of store into the other. *)
Lemma worker_calls_update_job_status self now job_id st res err model_id mt temp tp
    tasks w :
  worker_calls create clock uuid4_hex settings model_registry
    (update_job_status self now job_id st res err) model_id mt temp tp tasks w =
  worker_calls create clock uuid4_hex settings model_registry
    self model_id mt temp tp tasks w.
Proof.
  unfold update_job_status. destruct (get_job_status self now job_id); [|done].
  by destruct self.
Qed.

Lemma outcome_result_id task outcome :
  result_id (outcome_result task outcome) = task_id task.
Proof. destruct outcome as [e|response]; [done|]. simpl. by destruct (resp_choices _). Qed.

Lemma batch_results_ids tasks (outcomes : list (PyExn + ChatCompletionResponse)) :
  length outcomes = length tasks →
  result_id <$> zip_with outcome_result tasks outcomes = task_id <$> tasks.
Proof.
  revert outcomes. induction tasks as [|task rest IH]; intros [|o os] Hlen;
    simpl in *; try done.
  rewrite outcome_result_id. f_equal. apply IH. lia.
Qed.

(** C3.  Whatever the tasks and whichever model calls raise,
    [batch_chat_completion] returns a list and does not raise; the model is
    called once for every task, in order, each call starting in the world
    the previous call left behind; the list has one result per task, with
    the task's id; the result of a task whose call raised [e] has the empty
    output, zero usage and [str(e)] as its error. *)
Theorem batch_chat_completion_isolates_failures model_id tasks mt temp tp w :
  let calls :=
    model_calls create clock uuid4_hex settings model_registry
      model_id mt temp tp tasks w in
  ∃ results,
    batch_chat_completion create clock uuid4_hex settings model_registry
      model_id tasks mt temp tp w = (inr results, calls.2) ∧
    length calls.1 = length tasks ∧
    length results = length tasks ∧
    result_id <$> results = task_id <$> tasks ∧
    ∀ i task e,
      tasks !! i = Some task →
      calls.1 !! i = Some (inl e) →
      results !! i =
        Some {| result_id := task_id task;
                result_output := "";
                result_usage :=
                  {| prompt_tokens := 0; completion_tokens := 0; total_tokens := 0 |};
                result_error := Some (exn_str e) |}.
Proof.
  intros calls. eexists. split; [apply batch_chat_completion_eq|].
  fold calls.
  pose proof (model_calls_length model_id mt temp tp tasks w) as Hlen.
  fold calls in Hlen.
  split; [done|]. split.
  { rewrite length_zip_with. lia. }
  split; [by apply batch_results_ids|].
  intros i task e Htask Hcall.
  rewrite lookup_zip_with, Htask. simpl. by rewrite Hcall.
Qed.

End Executor.

(** A batch of three tasks in which the second model call raises: the job's
    three results come back in order, the second with the error. *)
Example second_of_three_fails :
  let task i := {| task_id := i; task_messages := [] |} in
  sample_batch_chat_completion
    "llama-7b" [task "a"; task "b"; task "c"] 512 0.7%float 0.95%float 0%nat
  = (inr [ {| result_id := "a"; result_output := "ok";
              result_usage := {| prompt_tokens := 3; completion_tokens := 1;
                                 total_tokens := 4 |};
              result_error := None |};
           {| result_id := "b"; result_output := "";
              result_usage := {| prompt_tokens := 0; completion_tokens := 0;
                                 total_tokens := 0 |};
              result_error := Some "Error calling model llama-7b: connection reset" |};
           {| result_id := "c"; result_output := "ok";
              result_usage := {| prompt_tokens := 3; completion_tokens := 1;
                                 total_tokens := 4 |};
              result_error := None |} ],
     3%nat).
Proof. vm_compute. reflexivity. Qed.

(** ** Effects of the service's operations on the store's data *)

Lemma elem_of_dict_set_keys d k v k' :
  k' ∈ (dict_set d k v).*1 ↔ k' = k ∨ k' ∈ d.*1.
Proof.
  induction d as [|[k0 v0] d IH]; simpl.
  - rewrite list_elem_of_singleton. set_solver.
  - destruct (decide (k0 = k)) as [->|Hne]; simpl.
    + set_solver.
    + rewrite !elem_of_cons, IH. naive_solver.
Qed.

Lemma dict_set_keys_unique d k v : NoDup d.*1 → NoDup (dict_set d k v).*1.
Proof.
  induction d as [|[k0 v0] d IH]; simpl; intros Hnd.
  - apply NoDup_singleton.
  - apply NoDup_cons in Hnd as [Hnotin Hnd].
    destruct (decide (k0 = k)) as [->|Hne]; simpl.
    + by apply NoDup_cons.
    + apply NoDup_cons. split; [|by apply IH].
      rewrite elem_of_dict_set_keys. naive_solver.
Qed.

Lemma first_queued_key d k : first_queued d = Some k → k ∈ d.*1.
Proof.
  induction d as [|[k0 v0] d IH]; simpl; [done|].
  destruct (String.eqb (status v0) "queued").
  - intros [= ->]. by left.
  - intros H. right. by apply IH.
Qed.

Lemma first_queued_status d k :
  NoDup d.*1 → first_queued d = Some k →
  ∃ job, dict_get d k = Some job ∧ status job = "queued".
Proof.
  induction d as [|[k0 v0] d IH]; simpl; [done|].
  intros [Hnotin Hnd]%NoDup_cons.
  destruct (String.eqb (status v0) "queued") eqn:Hst.
  - intros [= ->]. rewrite decide_True by done.
    exists v0. split; [done|]. by apply String.eqb_eq.
  - intros Hfirst. destruct (decide (k0 = k)) as [->|Hne].
    + by apply first_queued_key in Hfirst.
    + by apply IH.
Qed.

Lemma redis_rpop_cases db :
  (batch_queue db = [] ∧ redis_rpop db = (None, db)) ∨
  (∃ x front,
     batch_queue db = front ++ [x] ∧
     redis_rpop db = (Some x, {| keyspace := keyspace db; batch_queue := front |})).
Proof.
  unfold redis_rpop.
  destruct (reverse (batch_queue db)) as [|x back] eqn:Hrev.
  - left. split; [|done].
    apply (f_equal reverse) in Hrev. by rewrite reverse_involutive in Hrev.
  - right. exists x, (reverse back). split; [|done].
    apply (f_equal reverse) in Hrev.
    by rewrite reverse_involutive, reverse_cons in Hrev.
Qed.

Lemma queue_of_write_record self now job_id job_data :
  queue_of (write_record self now job_id job_data) = queue_of self.
Proof. by destruct self. Qed.

Lemma dict_keys_unique_write_record self now job_id job_data :
  dict_keys_unique self → dict_keys_unique (write_record self now job_id job_data).
Proof. destruct self; simpl; [done|]. apply dict_set_keys_unique. Qed.

(** An update either finds nothing and changes nothing, or replaces the
    stored record by its updated version. *)
Lemma update_job_status_cases self now job_id st res err :
  update_job_status self now job_id st res err = self ∨
  ∃ job,
    stored self job_id = Some job ∧
    update_job_status self now job_id st res err =
      write_record self now job_id (updated_record job now st res err).
Proof.
  rewrite update_job_status_eq.
  destruct (get_job_status self now job_id) as [job|] eqn:Hget; [|by left].
  right. exists job. split; [|done]. by eapply get_job_status_stored.
Qed.

(** ** Consistency of single records *)

Lemma lifecycle_move_refl (o : option Job) : lifecycle_move o o.
Proof. destruct o; simpl; [by left | done]. Qed.

Lemma record_consistent_submitted now uuid_hex m ts mt temp tp md :
  record_consistent (submitted_record now uuid_hex m ts mt temp tp md).
Proof. split; [done|]. intros rs Hrs. discriminate Hrs. Qed.

Lemma record_consistent_updated_without_results job now st res err :
  truthy res = false →
  record_consistent job →
  record_consistent (updated_record job now st res err).
Proof.
  intros Hfalsy [Hcount Hres].
  destruct (updated_record_tasks job now st res err) as [Htasks Htc].
  split; [by rewrite Htc, Htasks|].
  intros rs. rewrite updated_record_results, Hfalsy. intros Hrs.
  destruct (Hres rs Hrs) as (H1 & H2 & H3 & H4 & H5).
  unfold results_cover_tasks.
  rewrite Htc, Htasks, updated_record_completed_count, updated_record_failed_count.
  destruct res as [[|r l]|]; done.
Qed.

Lemma record_consistent_updated_with_results job now st rs err :
  length rs = length (tasks job) →
  result_id <$> rs = task_id <$> tasks job →
  record_consistent job →
  record_consistent (updated_record job now st (Some rs) err).
Proof.
  intros Hlen Hids Hjob.
  destruct rs as [|r rs'] eqn:Hrs.
  { by apply record_consistent_updated_without_results. }
  rewrite <- Hrs in *. assert (Htruthy : truthy (Some rs) = true) by (by subst rs).
  assert (Htruthy' : truthy rs = true) by (by subst rs).
  destruct Hjob as [Hcount _].
  destruct (updated_record_tasks job now st (Some rs) err) as [Htasks Htc].
  split; [by rewrite Htc, Htasks|].
  intros rs0. rewrite updated_record_results, Htruthy. intros [= <-].
  unfold results_cover_tasks.
  rewrite Htc, Htasks, updated_record_completed_count, updated_record_failed_count,
    Htruthy'.
  repeat split; try done.
  - rewrite Hcount. by rewrite Hlen.
  - rewrite sum_ones_split, Hcount. by rewrite Hlen.
Qed.

(** ** One iteration of the worker *)

(** What [worker_poll] does to the store: it takes at most one id off the
    queue, and either leaves every record alone, or has found a queued
    record and replaced it by its processing version. *)
Lemma worker_poll_cases self now :
  dict_keys_unique self →
  NoDup (queue_of self) →
  (∀ job_id, job_id ∈ queue_of self →
     ∃ job, stored self job_id = Some job ∧ status job = "queued") →
  let polled := worker_poll self now in
  dict_keys_unique (polled.2) ∧
  (∃ popped, queue_of self = queue_of (polled.2) ++ popped) ∧
  (((polled.1) = None ∧ ∀ job_id, stored (polled.2) job_id = stored self job_id) ∨
   (∃ job_id job,
      (polled.1) = Some (job_id, job) ∧
      stored self job_id = Some job ∧
      status job = "queued" ∧
      (job_id ∉ queue_of (polled.2)) ∧
      stored (polled.2) job_id = Some (updated_record job now "processing" None None) ∧
      ∀ job_id', job_id ≠ job_id' → stored (polled.2) job_id' = stored self job_id')).
Proof.
  intros Hdict Hnd Hqueued. unfold worker_poll.
  destruct self as [db|jobs].
  - (* Redis: RPOP *)
    cbn [get_next_job].
    destruct (redis_rpop_cases db) as [[Hempty ->] | (x & front & Hq & ->)].
    { split; [done|]. split; [exists []; by rewrite app_nil_r|]. by left. }
    set (db' := {| keyspace := keyspace db; batch_queue := front |}).
    cbn [queue_of] in Hnd, Hqueued. rewrite Hq in Hnd, Hqueued.
    apply NoDup_app in Hnd as (Hnd & Hnotin & _).
    cbn match.
    destruct (truthy x).
    2:{ split; [done|]. split; [by exists [x]|]. by left. }
    unfold process_batch_job_begin.
    destruct (get_job_status (WithRedis db') now x) as [job|] eqn:Hget.
    2:{ split; [done|]. split; [by exists [x]|]. by left. }
    cbn match. cbn [fst snd].
    rewrite update_job_status_eq, Hget.
    split; [done|]. split; [by exists [x]|].
    right. exists x, job.
    assert (Hst : stored (WithRedis db) x = Some job).
    { by apply get_job_status_stored in Hget. }
    destruct (Hqueued x) as (job' & Hst' & Hstatus); [set_solver|].
    rewrite Hst in Hst'. injection Hst' as <-.
    split; [done|]. split; [done|]. split; [done|].
    split; [intros Hin; apply (Hnotin x); [done | set_solver]|].
    split; [apply stored_write_record_eq|].
    intros job_id' Hne. by rewrite stored_write_record_ne.
  - (* dictionary: first queued record *)
    cbn [get_next_job]. simpl in Hdict.
    destruct (first_queued jobs) as [k|] eqn:Hfirst.
    2:{ split; [done|]. split; [by exists []|]. by left. }
    cbn match.
    destruct (truthy k).
    2:{ split; [done|]. split; [by exists []|]. by left. }
    destruct (first_queued_status jobs k Hdict Hfirst) as (job & Hget & Hstatus).
    unfold process_batch_job_begin. cbn [get_job_status]. rewrite Hget.
    cbn match. cbn [fst snd].
    rewrite update_job_status_eq. cbn [get_job_status]. rewrite Hget.
    split; [by apply dict_keys_unique_write_record|].
    split; [by exists []|].
    right. exists k, job. split; [done|]. split; [done|]. split; [done|].
    split; [simpl; apply not_elem_of_nil|].
    split; [apply stored_write_record_eq|].
    intros job_id' Hne. by rewrite stored_write_record_ne.
Qed.

Section Lifecycle.
Context {World : Type}.
Variable create :
  AsyncOpenAI → string → list Message → Z → float → float
  → IO World BackendResponse.
Variable clock : World → Z.
Variable uuid4_hex : World → string.
Variable settings : Settings.
Variable model_registry : ModelConfig.

Local Abbreviation sys_step := (step create clock uuid4_hex settings model_registry).
Local Abbreviation sys_reachable :=
  (reachable create clock uuid4_hex settings model_registry).
Local Abbreviation run_job_end :=
  (process_batch_job_end create clock uuid4_hex settings model_registry).
Local Abbreviation all_calls :=
  (worker_calls create clock uuid4_hex settings model_registry).

Lemma process_batch_job_end_eq self now job_id job_data w :
  let calls :=
    all_calls self (model_id job_data) (max_tokens job_data) (temperature job_data)
      (top_p job_data) (tasks job_data) w in
  run_job_end self now job_id job_data w =
  (update_job_status self now job_id "completed"
     (Some (zip_with outcome_result (tasks job_data) calls.1)) None,
   calls.2).
Proof.
  intros calls. unfold process_batch_job_end, calls, worker_calls.
  destruct self as [db|jobs].
  - by rewrite batch_chat_completion_dicts_eq.
  - by rewrite batch_chat_completion_eq.
Qed.

(** Every step keeps the invariant, and moves each record by at most one
    step of the life cycle. *)
Lemma step_preserves s s' :
  invariant s → sys_step s s' →
  invariant s' ∧
  ∀ job_id, lifecycle_move (stored (service s) job_id) (stored (service s') job_id).
Proof.
  intros [Hdict Hqnd Hqq Hfnd Hfp Hrec] Hstep.
  destruct Hstep as [request now uuid_hex answered_at Hfresh | now job_id | now
                    | now job_id job_data before after Hflight].
  - (* submission *)
    destruct (submit_batch_generation_service model_registry request now uuid_hex
                answered_at (service s)) as [-> | ->].
    { split; [by constructor|]. intros job_id. apply lifecycle_move_refl. }
    set (ts := map _ (req_tasks request)).
    set (mt := or_default (req_max_tokens request) 512).
    set (temp := or_default (req_temperature request) _).
    set (tp := or_default (req_top_p request) _).
    set (md := batch_metadata request).
    set (J := "batch-" +:+ uuid_hex) in *.
    set (svc' := (submit_batch_job (service s) now uuid_hex (req_model request)
                    ts mt temp tp md).2).
    assert (Hsvc : svc' = (submit_batch_job (service s) now uuid_hex (req_model request)
                             ts mt temp tp md).2) by done.
    clearbody svc'.
    assert (Hstored : ∀ job_id, stored svc' job_id =
              if decide (J = job_id)
              then Some (submitted_record now uuid_hex (req_model request) ts mt temp tp md)
              else stored (service s) job_id).
    { intros job_id. rewrite Hsvc. apply stored_submit_batch_job. }
    assert (Hqueue : queue_of svc' = [] ∨ queue_of svc' = J :: queue_of (service s)).
    { rewrite Hsvc. destruct (service s); [by right | by left]. }
    assert (Hnotq : J ∉ queue_of (service s)).
    { intros Hin. destruct (Hqq J Hin) as (job & Hjob & _). congruence. }
    split.
    + constructor; cbn [service in_flight].
      * rewrite Hsvc. destruct (service s); simpl; [done|].
        by apply dict_set_keys_unique.
      * destruct Hqueue as [-> | ->]; [apply NoDup_nil_2 | by apply NoDup_cons].
      * intros job_id Hin. rewrite Hstored.
        destruct Hqueue as [Hq | Hq]; rewrite Hq in Hin; [by apply elem_of_nil in Hin|].
        case_decide as HJ; [by eexists|].
        apply elem_of_cons in Hin as [-> | Hin]; [done|]. by apply Hqq.
      * done.
      * intros job_id job_data Hin. rewrite Hstored.
        destruct (Hfp job_id job_data Hin) as (job & Hjob & Hst & Hts).
        case_decide as HJ; [congruence|]. by exists job.
      * intros job_id job. rewrite Hstored.
        case_decide as HJ.
        -- intros [= <-]. apply record_consistent_submitted.
        -- apply Hrec.
    + intros job_id. rewrite Hstored.
      case_decide as HJ; [|apply lifecycle_move_refl].
      subst job_id. by rewrite Hfresh.
  - (* status lookup *)
    split; [by constructor|]. intros job_id'. apply lifecycle_move_refl.
  - (* a worker takes a job in hand *)
    destruct (worker_poll_cases (service s) now Hdict Hqnd Hqq)
      as (Hdict' & [popped Hpop] & Hcases).
    cbn [service in_flight].
    assert (Hqnd' : NoDup (queue_of (worker_poll (service s) now).2)).
    { rewrite Hpop in Hqnd. by apply NoDup_app in Hqnd as (? & _ & _). }
    assert (Hsub : ∀ job_id, job_id ∈ queue_of (worker_poll (service s) now).2 →
                             job_id ∈ queue_of (service s)).
    { intros job_id Hin. rewrite Hpop. set_solver. }
    destruct Hcases
      as [[Hnone Hsame] | (jid & job & Hsome & Hjob & Hst & Hnotq & Hnew & Hother)].
    + rewrite Hnone. split.
      * constructor; cbn [service in_flight]; try done.
        -- intros job_id Hin. rewrite Hsame. by apply Hqq, Hsub.
        -- intros job_id job_data Hin. rewrite Hsame. by apply Hfp.
        -- intros job_id job. rewrite Hsame. apply Hrec.
      * intros job_id. rewrite Hsame. apply lifecycle_move_refl.
    + rewrite Hsome.
      assert (Hnotf : ∀ job_data, (jid, job_data) ∉ in_flight s).
      { intros job_data Hin. destruct (Hfp jid job_data Hin) as (job' & Hjob' & Hst' & _).
        rewrite Hjob in Hjob'. injection Hjob' as <-. rewrite Hst in Hst'. discriminate. }
      split.
      * constructor; cbn [service in_flight]; try done.
        -- intros job_id Hin.
           assert (jid ≠ job_id) by (intros ->; done).
           rewrite Hother by done. by apply Hqq, Hsub.
        -- rewrite fmap_cons. apply NoDup_cons. split; [|done].
           intros Hin. apply list_elem_of_fmap in Hin as ([k v] & Hk & Hin).
           simpl in Hk. subst k. by apply (Hnotf v).
        -- intros job_id job_data Hin.
           apply elem_of_cons in Hin as [[= -> ->] | Hin].
           ++ eexists. split; [exact Hnew|].
              split; [apply updated_record_status|].
              apply updated_record_tasks.
           ++ assert (jid ≠ job_id) by (intros ->; by apply (Hnotf job_data)).
              rewrite Hother by done. by apply Hfp.
        -- intros job_id job'. destruct (decide (jid = job_id)) as [<- | Hne].
           ++ rewrite Hnew. intros [= <-].
              apply record_consistent_updated_without_results; [done|].
              by eapply Hrec.
           ++ rewrite Hother by done. apply Hrec.
      * intros job_id. destruct (decide (jid = job_id)) as [<- | Hne].
        -- rewrite Hjob, Hnew. simpl. right.
           rewrite updated_record_status, Hst. constructor.
        -- rewrite Hother by done. apply lifecycle_move_refl.
  - (* a worker records the outcome of its job *)
    rewrite process_batch_job_end_eq. cbn [fst snd service in_flight].
    set (calls := all_calls _ _ _ _ _ _ _).
    set (rs := zip_with outcome_result (tasks job_data) calls.1).
    assert (Hin : (job_id, job_data) ∈ in_flight s).
    { rewrite Hflight. set_solver. }
    destruct (Hfp job_id job_data Hin) as (job & Hjob & Hst & Hts).
    rewrite Hflight, fmap_app, fmap_cons in Hfnd. cbn [fst] in Hfnd.
    assert (Hfnd' : NoDup (before ++ after).*1).
    { rewrite fmap_app. apply NoDup_app in Hfnd as (Hb & Hba & Ha).
      apply NoDup_cons in Ha as [Hnotin Ha]. apply NoDup_app. split; [done|].
      split; [|done]. intros x Hx Hx'. apply (Hba x Hx). by right. }
    assert (Hnotf : ∀ job_data', (job_id, job_data') ∉ before ++ after).
    { intros job_data' Hin'.
      apply NoDup_app in Hfnd as (Hb & Hba & Ha).
      apply NoDup_cons in Ha as [Hnotin Ha].
      apply elem_of_app in Hin' as [Hin' | Hin'].
      - apply (Hba job_id); [|by left].
        apply list_elem_of_fmap. by exists (job_id, job_data').
      - apply Hnotin. apply list_elem_of_fmap. by exists (job_id, job_data'). }
    assert (Hsubf : ∀ x, x ∈ before ++ after → x ∈ in_flight s).
    { intros x Hx. rewrite Hflight. set_solver. }
    assert (Hnotq : job_id ∉ queue_of (service s)).
    { intros Hq. destruct (Hqq job_id Hq) as (job' & Hjob' & Hst').
      rewrite Hjob in Hjob'. injection Hjob' as <-. rewrite Hst in Hst'. discriminate. }
    destruct (update_job_status_cases (service s) now job_id "completed" (Some rs) None)
      as [Hsame | (job' & Hjob' & Hupd)].
    + rewrite Hsame. split.
      * constructor; cbn [service in_flight]; try done.
        intros k v Hkv. by apply Hfp, Hsubf.
      * intros k. apply lifecycle_move_refl.
    + rewrite Hjob in Hjob'. injection Hjob' as <-. rewrite Hupd. split.
      * constructor; cbn [service in_flight]; try done.
        -- by apply dict_keys_unique_write_record.
        -- by rewrite queue_of_write_record.
        -- intros k Hk. rewrite queue_of_write_record in Hk.
           assert (job_id ≠ k) by (intros ->; done).
           rewrite stored_write_record_ne by done. by apply Hqq.
        -- intros k v Hkv.
           assert (job_id ≠ k) by (intros ->; by apply (Hnotf v)).
           rewrite stored_write_record_ne by done. by apply Hfp, Hsubf.
        -- intros k v. destruct (decide (job_id = k)) as [<- | Hne].
           ++ rewrite stored_write_record_eq. intros [= <-].
              apply record_consistent_updated_with_results; [| |by eapply Hrec].
              ** unfold rs. rewrite length_zip_with, Hts.
                 unfold calls. rewrite worker_calls_length. lia.
              ** unfold rs. rewrite Hts. apply batch_results_ids.
                 unfold calls. apply worker_calls_length.
           ++ rewrite stored_write_record_ne by done. apply Hrec.
      * intros k. destruct (decide (job_id = k)) as [<- | Hne].
        -- rewrite Hjob, stored_write_record_eq. simpl. right.
           rewrite updated_record_status, Hst. constructor.
        -- rewrite stored_write_record_ne by done. apply lifecycle_move_refl.
Qed.

Lemma initial_invariant (s : System World) : initial s → invariant s.
Proof.
  intros [[Hsvc | Hsvc] Hflight]; constructor; rewrite ?Hsvc, ?Hflight; simpl;
    try done; try apply NoDup_nil_2; try (by intros ? ?%elem_of_nil);
    try (by intros ? ? ?%elem_of_nil).
Qed.

Lemma reachable_invariant s : sys_reachable s → invariant s.
Proof.
  intros (s0 & Hinit & Hsteps). revert s Hsteps.
  apply (rtc_ind_r (λ s, invariant s) s0).
  - by apply initial_invariant.
  - intros s1 s2 _ Hstep IH. by apply (step_preserves s1 s2).
Qed.

Lemma advances_stage a b : advances a b → (stage a < stage b)%nat.
Proof. intros []; vm_compute; lia. Qed.

Lemma rtc_advances_stage a b : rtc advances a b → a = b ∨ (stage a < stage b)%nat.
Proof.
  induction 1 as [|a b c Hab _ IH]; [by left|].
  right. apply advances_stage in Hab. destruct IH as [<- | Hlt]; lia.
Qed.

(** Along the life cycle there is no way back. *)
Lemma advances_no_way_back a b : rtc advances a b → rtc advances b a → a = b.
Proof.
  intros [Hab | Hab]%rtc_advances_stage [Hba | Hba]%rtc_advances_stage;
    try done; lia.
Qed.

Lemma reachable_rtc s s' : sys_reachable s → rtc sys_step s s' → sys_reachable s'.
Proof.
  intros (s0 & Hinit & Hsteps) Hmore. exists s0. split; [done|].
  by etrans.
Qed.

(** Over any number of steps a record stays in the store and its status
    moves along the life cycle only. *)
Lemma run_moves_forward s s' :
  sys_reachable s → rtc sys_step s s' →
  ∀ job_id job, stored (service s) job_id = Some job →
    ∃ job', stored (service s') job_id = Some job' ∧
            rtc advances (status job) (status job').
Proof.
  intros Hreach Hsteps job_id job Hjob. revert s' Hsteps.
  apply (rtc_ind_r (λ s', ∃ job', stored (service s') job_id = Some job' ∧
                                  rtc advances (status job) (status job')) s).
  - by exists job.
  - intros s1 s2 Hsteps Hstep (job1 & Hjob1 & Hadv).
    assert (Hinv : invariant s1).
    { apply reachable_invariant. by apply (reachable_rtc s s1). }
    destruct (step_preserves s1 s2 Hinv Hstep) as [_ Hmove].
    specialize (Hmove job_id). rewrite Hjob1 in Hmove.
    destruct (stored (service s2) job_id) as [job2|]; [|done].
    exists job2. split; [done|].
    destruct Hmove as [Heq | Hnext].
    + by rewrite Heq.
    + by eapply rtc_r.
Qed.

(** C1.  In every state reachable through submissions, status lookups and
    the worker's steps (with job ids that do not repeat, as [step_submit]
    asks), any further step leaves the record under a job id in its status
    or moves it one step forward along
    queued -> processing -> completed | failed; a record that appears is
    queued, and no record disappears from the store's data.  So no step
    takes a job back, and the only way into completed or failed is from
    processing.  The same holds for what [get_job_status] returns before and
    after the step. *)
Theorem status_only_moves_forward s s' :
  sys_reachable s → sys_step s s' →
  ∀ job_id,
    lifecycle_move (stored (service s) job_id) (stored (service s') job_id) ∧
    ∀ t t' job job',
      get_job_status (service s) t job_id = Some job →
      get_job_status (service s') t' job_id = Some job' →
      status job' = status job ∨ advances (status job) (status job').
Proof.
  intros Hreach Hstep job_id.
  destruct (step_preserves s s' (reachable_invariant s Hreach) Hstep) as [_ Hmove].
  split; [apply Hmove|].
  intros t t' job job' Hget Hget'.
  apply get_job_status_stored in Hget, Hget'.
  specialize (Hmove job_id). by rewrite Hget, Hget' in Hmove.
Qed.

(** C2.  In every reachable state, a job that is served with its [results]
    populated has one result per task ([task_count] of them), the ids of the
    results are the ids of the job's tasks in the same order, and
    [completed_count] and [failed_count], which count the results without
    and with an error, add up to [task_count]. *)
Theorem populated_results_cover_tasks s t job_id job rs :
  sys_reachable s →
  get_job_status (service s) t job_id = Some job →
  results job = Some rs →
  Z.of_nat (length rs) = task_count job ∧
  task_count job = Z.of_nat (length (tasks job)) ∧
  result_id <$> rs = task_id <$> tasks job ∧
  completed_count job = sum_ones (λ r, negb (truthy (result_error r))) rs ∧
  failed_count job = sum_ones (λ r, truthy (result_error r)) rs ∧
  completed_count job + failed_count job = task_count job.
Proof.
  intros Hreach Hget Hrs.
  apply get_job_status_stored in Hget.
  destruct (inv_records s (reachable_invariant s Hreach) job_id job Hget) as [Hcount Hres].
  destruct (Hres rs Hrs) as (H1 & H2 & H3 & H4 & H5).
  by repeat split.
Qed.

End Lifecycle.

(** ** The sample run *)

Lemma run0_to_run1 :
  sample_step run0 run1.
Proof.
  exact (step_submit _ _ _ _ _
           run0 sample_request 1000 "0123456789ab" 1000 eq_refl).
Qed.

Lemma run1_to_run2 :
  sample_step run1 run2.
Proof.
  exact (step_poll _ _ _ _ _
           run1 2000).
Qed.

Lemma run2_to_run3 :
  sample_step run2 run3.
Proof.
  apply (step_resume _ _ _ _ _
           run2 3000 "batch-0123456789ab" run2_job [] []).
  vm_compute. reflexivity.
Qed.

Lemma run1_reachable :
  sample_reachable run1.
Proof.
  exists run0. split; [split; [by left | done]|].
  eapply rtc_l; [apply run0_to_run1 | apply rtc_refl].
Qed.

Lemma run3_reachable :
  sample_reachable run3.
Proof.
  exists run0. split; [split; [by left | done]|].
  eapply rtc_l; [apply run0_to_run1|].
  eapply rtc_l; [apply run1_to_run2|].
  eapply rtc_l; [apply run2_to_run3 | apply rtc_refl].
Qed.

Lemma status_only_moves_forward_witness :
  (status <$> stored (service run1) "batch-0123456789ab") = Some "queued" ∧
  (status <$> stored (service run2) "batch-0123456789ab") = Some "processing" ∧
  lifecycle_move (stored (service run1) "batch-0123456789ab")
                 (stored (service run2) "batch-0123456789ab").
Proof.
  split; [vm_compute; reflexivity|]. split; [vm_compute; reflexivity|].
  apply (status_only_moves_forward sample_create sample_clock sample_uuid4_hex
           sample_settings sample_registry run1 run2 run1_reachable run1_to_run2).
Defined.

Lemma populated_results_cover_tasks_witness :
  ∃ job rs,
    get_job_status (service run3) 4000 "batch-0123456789ab" = Some job ∧
    results job = Some rs ∧
    status job = "completed" ∧
    task_count job = 3 ∧
    Z.of_nat (length rs) = task_count job ∧
    result_id <$> rs = ["a"; "b"; "c"] ∧
    completed_count job = 2 ∧
    failed_count job = 1 ∧
    completed_count job + failed_count job = task_count job.
Proof.
  destruct (get_job_status (service run3) 4000 "batch-0123456789ab") as [job|] eqn:Hget;
    [|vm_compute in Hget; discriminate Hget].
  destruct (results job) as [rs|] eqn:Hrs;
    [|vm_compute in Hget; injection Hget as <-; discriminate Hrs].
  destruct (populated_results_cover_tasks sample_create sample_clock sample_uuid4_hex
              sample_settings sample_registry run3 4000 "batch-0123456789ab" job rs
              run3_reachable Hget Hrs) as (H1 & H2 & H3 & H4 & H5 & H6).
  exists job, rs. split; [done|]. split; [done|].
  vm_compute in Hget. injection Hget as <-.
  injection Hrs as <-.
  split; [reflexivity|]. split; [reflexivity|]. split; [exact H1|].
  split; [exact H3|]. split; [reflexivity|]. split; [reflexivity|]. exact H6.
Defined.

(** One whole run of [process_batch_job] on the dictionary fallback: two
    tasks, both answered, marked processing at 2000 and completed at 3000. *)
Example process_batch_job_end_to_end :
  let finished :=
    (sample_process_batch_job
       dict_one_job 2000 3000 "batch-0123456789ab" 5%nat).1 in
  (λ job, (status job, started_at job, completed_at job, task_count job,
           completed_count job, failed_count job, fmap (M:=list) result_id <$> results job))
    <$> get_job_status finished 4000 "batch-0123456789ab"
  = Some ("completed", Some 2000, Some 3000, 2, 2, 0, Some ["task-1"; "task-2"]).
Proof. vm_compute. reflexivity. Qed.

(** * Further properties of the code *)

(** ** The queue *)

Lemma dequeue_n_redis ks q :
  dequeue_n (length q) (WithRedis {| keyspace := ks; batch_queue := q |}) =
  (Some <$> reverse q, WithRedis {| keyspace := ks; batch_queue := [] |}).
Proof.
  induction q as [|x front IH] using rev_ind; [done|].
  rewrite length_app, Nat.add_1_r. cbn [dequeue_n get_next_job].
  unfold redis_rpop. cbn [batch_queue keyspace].
  rewrite reverse_app, reverse_singleton. cbn [app].
  rewrite reverse_involutive, IH. done.
Qed.

(** X1.  On Redis the ids leave the queue oldest first: as many calls of
    [get_next_job] as the list is long return its ids from the tail to the
    head ([LPUSH] adds at the head), leave the list empty and the key space
    as it was, and one more call returns [None] and changes nothing. *)
Theorem redis_queue_is_fifo db :
  let emptied := WithRedis {| keyspace := keyspace db; batch_queue := [] |} in
  dequeue_n (length (batch_queue db)) (WithRedis db) =
    (Some <$> reverse (batch_queue db), emptied) ∧
  get_next_job emptied = (None, emptied).
Proof. destruct db as [ks q]. split; [apply dequeue_n_redis | done]. Qed.

Lemma first_queued_None d : first_queued d = None ↔ queued_count d = 0%nat.
Proof.
  unfold queued_count. induction d as [|[k v] d IH]; simpl; [done|].
  destruct (String.eqb (status v) "queued"); simpl; [|done].
  split; [done | intros H; lia].
Qed.

(** X2.  On the dictionary fallback [get_next_job] takes nothing away: the
    store is returned as it was.  It answers [None] exactly when no record
    is queued, and an id it answers is the id of a record that is served
    with status queued. *)
Theorem in_memory_get_next_job jobs now :
  NoDup jobs.*1 →
  (get_next_job (InMemory jobs)).2 = InMemory jobs ∧
  ((get_next_job (InMemory jobs)).1 = None ↔ queued_count jobs = 0%nat) ∧
  ∀ job_id, (get_next_job (InMemory jobs)).1 = Some job_id →
    ∃ job, get_job_status (InMemory jobs) now job_id = Some job ∧ status job = "queued".
Proof.
  intros Hnd. cbn [get_next_job fst snd]. split; [done|].
  split; [apply first_queued_None|].
  intros job_id Hfirst. by apply first_queued_status.
Qed.

Lemma in_memory_get_next_job_witness :
  (get_next_job dict_one_job).1 = Some "batch-0123456789ab" ∧
  ∃ job, get_job_status dict_one_job 5000 "batch-0123456789ab" = Some job ∧
         status job = "queued".
Proof.
  split; [vm_compute; reflexivity|].
  destruct (in_memory_get_next_job
              [("batch-0123456789ab",
                submitted_record 1000 "0123456789ab" "llama-7b" example_tasks
                  512 0.7%float 0.95%float None)] 5000) as (_ & _ & Hsome).
  - apply NoDup_singleton.
  - apply Hsome. vm_compute. reflexivity.
Defined.

(** ** Submissions *)

(** X3.  [submit_batch_job] returns the id ["batch-" + uuid_hex], stores the
    queued record under it whatever was there before, leaves what is served
    under every other id as it was, and on Redis puts the id at the head of
    the queue. *)
Theorem submit_batch_job_effect self now uuid_hex model_id tasks max_tokens temperature
    top_p metadata :
  let submitted :=
    submit_batch_job self now uuid_hex model_id tasks max_tokens temperature top_p
      metadata in
  submitted.1 = "batch-" +:+ uuid_hex ∧
  stored submitted.2 submitted.1 =
    Some (submitted_record now uuid_hex model_id tasks max_tokens temperature top_p
            metadata) ∧
  (∀ t job_id, job_id ≠ submitted.1 →
     get_job_status submitted.2 t job_id = get_job_status self t job_id) ∧
  queue_of submitted.2 =
    match self with
    | WithRedis _ => submitted.1 :: queue_of self
    | InMemory _ => []
    end.
Proof.
  intros submitted. unfold submitted. rewrite submit_batch_job_id.
  split; [done|]. split.
  { rewrite stored_submit_batch_job. by rewrite decide_True. }
  split; [|by destruct self].
  intros t job_id Hne. destruct self as [db|jobs]; cbn -[String.append].
  - unfold redis_get, redis_lpush, redis_set. cbn -[String.append].
    rewrite lookup_insert_ne; [done|]. intros H. apply job_key_inj in H. congruence.
  - apply dict_get_set_ne. congruence.
Qed.

Lemma or_default_truthy {A} `{Truthy A} (o : option A) (d : A) :
  truthy d = true → truthy (or_default o d) = true.
Proof.
  intros Hd. destruct o as [x|]; simpl; [|done].
  by destruct (truthy x) eqn:Hx.
Qed.

(** X4.  A job that the endpoint has stored never carries a zero or missing
    generation parameter: whenever the endpoint answers a submission, the
    record stored under the id of the answer has as [max_tokens],
    [temperature] and [top_p] the request's values when these are given and
    not zero, and 512, 0.7 and 0.95 otherwise. *)
Theorem endpoint_defaults model_registry request now uuid_hex answered_at batch_service
    response :
  (submit_batch_generation model_registry request now uuid_hex answered_at
     batch_service).1 = inr response →
  ∃ job,
    stored (submit_batch_generation model_registry request now uuid_hex answered_at
              batch_service).2
      (sub_job_id response) = Some job ∧
    max_tokens job ≠ 0 ∧
    truthy (temperature job) = true ∧
    truthy (top_p job) = true ∧
    max_tokens job =
      match req_max_tokens request with
      | Some m => if m =? 0 then 512 else m
      | None => 512
      end ∧
    temperature job =
      match req_temperature request with
      | Some f => if PrimFloat.eqb f 0%float then 0.7%float else f
      | None => 0.7%float
      end ∧
    top_p job =
      match req_top_p request with
      | Some f => if PrimFloat.eqb f 0%float then 0.95%float else f
      | None => 0.95%float
      end.
Proof.
  intros Hanswer.
  destruct (submit_batch_generation_answered _ _ _ _ _ _ _ Hanswer) as [-> ->].
  cbn [sub_job_id].
  rewrite stored_submit_batch_job, decide_True by done.
  eexists. split; [done|]. cbn [max_tokens temperature top_p submitted_record].
  split.
  { intros Hzero.
    pose proof (or_default_truthy (req_max_tokens request) 512 eq_refl) as Ht.
    rewrite Hzero in Ht. discriminate Ht. }
  split; [by apply or_default_truthy|]. split; [by apply or_default_truthy|].
  split; [|split].
  - unfold or_default, truthy, truthy_Z.
    destruct (req_max_tokens request) as [m|]; [|done]. by destruct (m =? 0).
  - unfold or_default, truthy, truthy_float.
    destruct (req_temperature request) as [f|]; [|done].
    by destruct (PrimFloat.eqb f 0%float).
  - unfold or_default, truthy, truthy_float.
    destruct (req_top_p request) as [f|]; [|done].
    by destruct (PrimFloat.eqb f 0%float).
Qed.

(** On the dictionary fallback, for a request with messages that gives
    [max_tokens] and [temperature] as zero and no [top_p]. *)
Lemma endpoint_defaults_witness :
  ∃ job,
    stored (submit_batch_generation sample_registry request_with_messages
              1000 "0123456789ab" 1000 (InMemory [])).2 "batch-0123456789ab"
      = Some job ∧
    max_tokens job = 512 ∧ temperature job = 0.7%float ∧ top_p job = 0.95%float.
Proof.
  destruct (endpoint_defaults sample_registry request_with_messages
              1000 "0123456789ab" 1000 (InMemory [])
              {| sub_job_id := "batch-0123456789ab"; sub_status := "queued";
                 sub_submitted_at := 1000; sub_task_count := 2 |})
    as (job & Hjob & _ & _ & _ & Hm & Ht & Hp).
  - vm_compute. reflexivity.
  - exists job. by repeat split.
Defined.

(** X30.  The endpoint answers a submission exactly when the model is
    registered and, on Redis, no task of the request carries a message.  In
    every other case it raises, either the 400 error for a model that is not
    registered, or, on Redis, the [TypeError] of [json.dumps] for a request
    with a message, and leaves the store and the queue as they were: no
    record, no queue entry, no job id. *)
Theorem submission_is_answered_iff model_registry request now uuid_hex answered_at
    batch_service :
  let submitted :=
    submit_batch_generation model_registry request now uuid_hex answered_at
      batch_service in
  ((∃ response, submitted.1 = inr response) ↔
   is_Some (models model_registry !! req_model request) ∧
   match batch_service with
   | WithRedis _ => Forall (λ task, bt_messages task = []) (req_tasks request)
   | InMemory _ => True
   end) ∧
  ∀ e, submitted.1 = inl e →
    submitted.2 = batch_service ∧
    match models model_registry !! req_model request with
    | None =>
        e = RaisedHTTP {| status_code := 400;
                          detail := "Unknown model: " +:+ req_model request |}
    | Some _ =>
        e = RaisedException
              (TypeError "Object of type Message is not JSON serializable")
    end.
Proof.
  intros submitted. unfold submitted, submit_batch_generation, is_valid_model.
  destruct (models model_registry !! req_model request) as [entry|] eqn:Hentry.
  2:{ rewrite bool_decide_false by (by intros [? ?]). cbn [negb fst snd].
      split; [|by intros e [= <-]].
      split; [by intros [response ?] | by intros [[? ?] _]]. }
  rewrite bool_decide_true by done. cbn [negb].
  set (ts := map _ (req_tasks request)).
  assert (Hmsg : json_dumps_message_objects ts = None ↔
                 Forall (λ task, bt_messages task = []) (req_tasks request)).
  { unfold json_dumps_message_objects, ts.
    induction (req_tasks request) as [|task rest IH]; [done|].
    cbn [map existsb task_messages]. rewrite Forall_cons.
    destruct (bt_messages task) as [|m ms]; cbn [truthy truthy_list orb].
    - rewrite IH. naive_solver.
    - split; [done | by intros [? _]]. }
  destruct (submit_batch_job _ _ _ _ _ _ _ _ _) as [jid svc].
  destruct batch_service as [db|jobs].
  - destruct (json_dumps_message_objects ts) as [e0|] eqn:Hdumps; cbn [fst snd].
    + split.
      * split; [by intros [response ?]|]. intros [_ Hall].
        apply Hmsg in Hall. discriminate Hall.
      * intros e [= <-]. split; [done|].
        unfold json_dumps_message_objects in Hdumps.
        destruct (existsb _ ts); [|done]. by injection Hdumps as <-.
    + split; [|done]. split; [|by eexists].
      intros _. split; [done|]. by apply Hmsg.
  - cbn [fst snd]. split; [|done]. split; [done | by eexists].
Qed.

(** The request with messages, on Redis: no answer, and the store as empty
    as before. *)
Lemma submission_is_answered_iff_witness :
  let submitted :=
    submit_batch_generation sample_registry request_with_messages 1000 "0123456789ab"
      1000 empty_redis in
  (¬ ∃ response, submitted.1 = inr response) ∧
  submitted.1 =
    inl (RaisedException (TypeError "Object of type Message is not JSON serializable")) ∧
  submitted.2 = empty_redis.
Proof.
  intros submitted.
  destruct (submission_is_answered_iff sample_registry request_with_messages 1000
              "0123456789ab" 1000 empty_redis) as [Hiff Herr].
  split.
  { intros Hanswer. apply Hiff in Hanswer as [_ Hall].
    apply Forall_cons in Hall as [Hnil _]. discriminate Hnil. }
  destruct (Herr (RaisedException
                    (TypeError "Object of type Message is not JSON serializable")))
    as [Hsame He]; [vm_compute; reflexivity|].
  split; [vm_compute; reflexivity | exact Hsame].
Defined.

(** ** More on updates *)

Lemma updated_record_submission_data j now st res err :
  let j' := updated_record j now st res err in
  job_id j' = job_id j ∧ model_id j' = model_id j ∧ tasks j' = tasks j ∧
  max_tokens j' = max_tokens j ∧ temperature j' = temperature j ∧
  top_p j' = top_p j ∧ metadata j' = metadata j ∧
  submitted_at j' = submitted_at j ∧ task_count j' = task_count j.
Proof. updated_record_field j st res err. Qed.

(** X5.  An update changes one record only: what is served under any other
    job id, at any time, is what was served before, and the queue is as it
    was. *)
Theorem update_job_status_frame self now job_id job_id' st res err t :
  job_id ≠ job_id' →
  get_job_status (update_job_status self now job_id st res err) t job_id' =
    get_job_status self t job_id' ∧
  queue_of (update_job_status self now job_id st res err) = queue_of self.
Proof.
  intros Hne. rewrite update_job_status_eq.
  destruct (get_job_status self now job_id); [|done].
  split; [by apply get_write_record_ne | apply queue_of_write_record].
Qed.

Lemma update_job_status_frame_witness :
  let two_jobs :=
    (submit_batch_job redis_one_job 1500 "ba9876543210" "llama-7b" [] 512
       0.7%float 0.95%float None).2 in
  get_job_status
    (update_job_status two_jobs 2000 "batch-ba9876543210" "completed" None None)
    2500 "batch-0123456789ab" =
    get_job_status two_jobs 2500 "batch-0123456789ab" ∧
  queue_of
    (update_job_status two_jobs 2000 "batch-ba9876543210" "completed" None None) =
    queue_of two_jobs.
Proof.
  intros two_jobs.
  apply (update_job_status_frame two_jobs 2000 "batch-ba9876543210"
           "batch-0123456789ab" "completed" None None 2500).
  discriminate.
Defined.

(** X6.  An update never touches what was submitted: the record it writes
    has the [job_id], [model_id], [tasks], generation parameters, [metadata],
    [submitted_at] and [task_count] of the record it found. *)
Theorem update_keeps_submission_data self now job_id st res err job_data :
  get_job_status self now job_id = Some job_data →
  ∃ job_data',
    get_job_status (update_job_status self now job_id st res err) now job_id
      = Some job_data' ∧
    record_job_id job_data' = record_job_id job_data ∧
    model_id job_data' = model_id job_data ∧
    tasks job_data' = tasks job_data ∧
    max_tokens job_data' = max_tokens job_data ∧
    temperature job_data' = temperature job_data ∧
    top_p job_data' = top_p job_data ∧
    metadata job_data' = metadata job_data ∧
    submitted_at job_data' = submitted_at job_data ∧
    task_count job_data' = task_count job_data.
Proof.
  intros Hget. rewrite update_job_status_eq, Hget.
  rewrite get_write_record_eq by apply served_now.
  eexists. split; [done|]. apply updated_record_submission_data.
Qed.

Lemma update_keeps_submission_data_witness :
  ∃ job_data',
    get_job_status
      (update_job_status redis_one_job 2000 "batch-0123456789ab" "completed"
         (Some []) (Some "x"))
      2000 "batch-0123456789ab" = Some job_data' ∧
    tasks job_data' = example_tasks ∧ task_count job_data' = 2 ∧
    submitted_at job_data' = 1000.
Proof.
  destruct (update_keeps_submission_data redis_one_job 2000 "batch-0123456789ab"
              "completed" (Some []) (Some "x")
              (submitted_record 1000 "0123456789ab" "llama-7b" example_tasks
                 512 0.7%float 0.95%float None))
    as (job_data' & Hget & _ & _ & Hts & _ & _ & _ & _ & Hsub & Htc).
  - vm_compute. reflexivity.
  - exists job_data'. by repeat split.
Defined.

(** X7.  An update never clears a field: [started_at], [completed_at],
    [results] and [error] that are set stay set, [started_at] that counts as
    set keeps its value, and [error] changes only to a non-empty message
    passed with the update. *)
Theorem update_never_clears self now job_id st res err job_data :
  get_job_status self now job_id = Some job_data →
  ∃ job_data',
    get_job_status (update_job_status self now job_id st res err) now job_id
      = Some job_data' ∧
    (started_at job_data ≠ None → started_at job_data' ≠ None) ∧
    (truthy (started_at job_data) = true →
       started_at job_data' = started_at job_data) ∧
    (completed_at job_data ≠ None → completed_at job_data' ≠ None) ∧
    (results job_data ≠ None → results job_data' ≠ None) ∧
    (error job_data ≠ None → error job_data' ≠ None) ∧
    (error job_data' = error job_data ∨
     ∃ msg, err = Some msg ∧ msg ≠ "" ∧ error job_data' = Some msg).
Proof.
  intros Hget. rewrite update_job_status_eq, Hget.
  rewrite get_write_record_eq by apply served_now.
  eexists. split; [done|].
  rewrite updated_record_started_at, updated_record_completed_at,
    updated_record_results, updated_record_error.
  split.
  { destruct (String.eqb st "processing" && _); done. }
  split.
  { intros ->. by rewrite andb_false_r. }
  split.
  { destruct (String.eqb st "completed" || _); done. }
  split.
  { destruct res as [[|r rs]|]; done. }
  split.
  { destruct err as [[|c msg]|]; done. }
  destruct err as [[|c msg]|]; [by left | | by left].
  right. by eexists.
Qed.

Lemma update_never_clears_witness :
  let failed :=
    update_job_status redis_one_job 2000 "batch-0123456789ab" "failed" None
      (Some "backend unreachable") in
  ∃ job_data',
    get_job_status
      (update_job_status failed 3000 "batch-0123456789ab" "completed" None None)
      3000 "batch-0123456789ab" = Some job_data' ∧
    error job_data' = Some "backend unreachable".
Proof.
  intros failed.
  destruct (update_never_clears failed 3000 "batch-0123456789ab" "completed" None None
              (updated_record
                 (submitted_record 1000 "0123456789ab" "llama-7b" example_tasks
                    512 0.7%float 0.95%float None)
                 2000 "failed" None (Some "backend unreachable")))
    as (job_data' & Hget & _ & _ & _ & _ & _ & [Herr | (msg & Hmsg & _)]).
  - vm_compute. reflexivity.
  - exists job_data'. split; [done|]. rewrite Herr. reflexivity.
  - discriminate Hmsg.
Defined.

(** ** The status endpoint *)

(** X8.  The status endpoint answers 404 with the detail
    ["Job not found: " + job_id] exactly when the store serves no record
    under the id (never created, or expired on Redis). *)
Theorem get_batch_status_not_found batch_service now job_id :
  get_batch_status batch_service now job_id =
    inl (RaisedHTTP {| status_code := 404; detail := "Job not found: " +:+ job_id |})
  ↔ get_job_status batch_service now job_id = None.
Proof.
  unfold get_batch_status.
  destruct (get_job_status batch_service now job_id) as [job_data|]; [|done].
  split; [|done]. by destruct (status_literal (status job_data)).
Qed.

(** X9.  A submission that the endpoint answers, looked up through the
    status endpoint while the record is served, is reported as queued, with
    the id and the task count of the answer, no results, zero counts and no
    error.  As [submitted_at] the status endpoint reports the clock as
    [submit_batch_job] read it for the record; the answer to the submission
    carries the clock as the handler read it afterwards, so the two agree
    only when both readings fall into the same second. *)
Theorem status_endpoint_after_submission model_registry request now uuid_hex answered_at
    batch_service response t :
  let submitted :=
    submit_batch_generation model_registry request now uuid_hex answered_at
      batch_service in
  submitted.1 = inr response →
  served batch_service now t = true →
  response =
    {| sub_job_id := "batch-" +:+ uuid_hex; sub_status := "queued";
       sub_submitted_at := answered_at;
       sub_task_count := Z.of_nat (length (req_tasks request)) |} ∧
  get_batch_status submitted.2 t (sub_job_id response) =
    inr {| bs_job_id := sub_job_id response;
           bs_status := "queued";
           bs_submitted_at := now;
           bs_started_at := None;
           bs_completed_at := None;
           bs_task_count := sub_task_count response;
           bs_completed_count := 0;
           bs_failed_count := 0;
           bs_results := None;
           bs_error := None |}.
Proof.
  intros submitted Hanswer Hserved. unfold submitted.
  destruct (submit_batch_generation_answered _ _ _ _ _ _ _ Hanswer) as [-> ->].
  split; [done|]. cbn [sub_job_id sub_task_count].
  unfold get_batch_status. rewrite get_submit_batch_job by done.
  cbn -[String.append]. by rewrite length_map.
Qed.

(** On the dictionary fallback, for a request with messages; the handler
    reads the clock for its answer one second after the record was made. *)
Lemma status_endpoint_after_submission_witness :
  let submitted :=
    submit_batch_generation sample_registry request_with_messages 1000 "0123456789ab"
      1001 (InMemory []) in
  submitted.1 = inr {| sub_job_id := "batch-0123456789ab"; sub_status := "queued";
                       sub_submitted_at := 1001; sub_task_count := 2 |} ∧
  get_batch_status submitted.2 5000 "batch-0123456789ab" =
  inr {| bs_job_id := "batch-0123456789ab"; bs_status := "queued";
         bs_submitted_at := 1000; bs_started_at := None; bs_completed_at := None;
         bs_task_count := 2; bs_completed_count := 0; bs_failed_count := 0;
         bs_results := None; bs_error := None |}.
Proof.
  intros submitted.
  destruct (status_endpoint_after_submission sample_registry request_with_messages
              1000 "0123456789ab" 1001 (InMemory [])
              {| sub_job_id := "batch-0123456789ab"; sub_status := "queued";
                 sub_submitted_at := 1001; sub_task_count := 2 |} 5000)
    as [_ Hstatus]; [vm_compute; reflexivity | reflexivity |].
  split; [vm_compute; reflexivity | exact Hstatus].
Defined.

(** X10.  For a served record with one of the four statuses the status
    endpoint echoes status, times, counts and error of the record; it
    reports [results] as null when the record's results are null or empty,
    and otherwise as one entry per stored result, in order, each with the
    id, output, usage and error of the stored one. *)
Theorem get_batch_status_echo batch_service now job_id job_data :
  get_job_status batch_service now job_id = Some job_data →
  status_literal (status job_data) = true →
  ∃ response,
    get_batch_status batch_service now job_id = inr response ∧
    bs_job_id response = record_job_id job_data ∧
    bs_status response = status job_data ∧
    bs_submitted_at response = submitted_at job_data ∧
    bs_started_at response = started_at job_data ∧
    bs_completed_at response = completed_at job_data ∧
    bs_task_count response = task_count job_data ∧
    bs_completed_count response = completed_count job_data ∧
    bs_failed_count response = failed_count job_data ∧
    bs_error response = error job_data ∧
    (bs_results response = None ↔
       results job_data = None ∨ results job_data = Some []) ∧
    ∀ rs, results job_data = Some rs → rs ≠ [] →
      ∃ out,
        bs_results response = Some out ∧
        length out = length rs ∧
        ∀ i r, rs !! i = Some r →
          ∃ o, out !! i = Some o ∧
               btr_id o = result_id r ∧ btr_output o = result_output r ∧
               btr_usage o = result_usage r ∧ btr_error o = result_error r.
Proof.
  intros Hget Hlit. unfold get_batch_status. rewrite Hget, Hlit.
  eexists. split; [done|]. cbn.
  repeat (split; [done|]).
  split.
  - destruct (results job_data) as [[|r rs]|]; cbn; naive_solver.
  - intros rs Hrs Hne. rewrite Hrs.
    assert (Htruthy : truthy (Some rs) = true) by (by destruct rs).
    rewrite Htruthy. cbn [default]. unfold id.
    eexists. split; [reflexivity|]. split; [by rewrite length_map|].
    intros i r Hi.
    match goal with
    | |- context [map ?f ?l !! i] => change (map f l) with (f <$> l)
    end.
    rewrite list_lookup_fmap, Hi. cbn.
    eexists. split; [done|]. by destruct (result_usage r).
Qed.

Lemma get_batch_status_echo_witness :
  ∃ response,
    get_batch_status (service run3) 4000 "batch-0123456789ab" = inr response ∧
    bs_status response = "completed" ∧
    bs_completed_count response = 2 ∧
    bs_failed_count response = 1 ∧
    (λ out : list BatchTaskResult, btr_id <$> out) <$> bs_results response
      = Some ["a"; "b"; "c"].
Proof.
  destruct (get_job_status (service run3) 4000 "batch-0123456789ab")
    as [job_data|] eqn:Hget; [|vm_compute in Hget; discriminate Hget].
  destruct (get_batch_status_echo (service run3) 4000 "batch-0123456789ab" job_data
              Hget) as (response & Hresp & _).
  - vm_compute in Hget. injection Hget as <-. reflexivity.
  - exists response. split; [exact Hresp|].
    vm_compute in Hresp. injection Hresp as <-. by repeat split.
Defined.

(** ** One job, from beginning to end *)

Lemma queue_of_update_job_status self now job_id st res err :
  queue_of (update_job_status self now job_id st res err) = queue_of self.
Proof.
  destruct (update_job_status_cases self now job_id st res err)
    as [-> | (job & _ & ->)]; [done|]. apply queue_of_write_record.
Qed.

Lemma zip_with_outcome_nil tasks (outcomes : list (PyExn + ChatCompletionResponse)) :
  length outcomes = length tasks →
  zip_with outcome_result tasks outcomes = [] ↔ tasks = [].
Proof. destruct tasks, outcomes; simpl; naive_solver. Qed.

Section WholeJob.
Context {World : Type}.
Variable create :
  AsyncOpenAI → string → list Message → Z → float → float
  → IO World BackendResponse.
Variable clock : World → Z.
Variable uuid4_hex : World → string.
Variable settings : Settings.
Variable model_registry : ModelConfig.

(** X11.  [process_batch_job] on a job that the store does not serve does
    nothing: no model call is made (the world is as before) and the store
    is unchanged. *)
Theorem process_batch_job_absent batch_service t_start t_end job_id w :
  get_job_status batch_service t_start job_id = None →
  process_batch_job create clock uuid4_hex settings model_registry
    batch_service t_start t_end job_id w = (batch_service, w).
Proof.
  intros Hget. unfold process_batch_job, process_batch_job_begin. by rewrite Hget.
Qed.

(** On tasks read back from Redis, for a registered model, every call for a
    task with a message raises on [msg.role] and leaves the world alone. *)
Lemma model_calls_dicts_with_messages model_id entry mt temp tp tasks w :
  models model_registry !! model_id = Some entry →
  Forall (λ task, task_messages task ≠ []) tasks →
  model_calls_dicts create clock uuid4_hex settings model_registry
    model_id mt temp tp tasks w =
  ((λ _, inl (AttributeError "'dict' object has no attribute 'role'")) <$> tasks, w).
Proof.
  intros Hentry Hall. induction Hall as [|task rest Hmsg _ IH]; [done|].
  cbn [model_calls_dicts]. unfold chat_completion_dicts at 1.
  unfold _get_client, get_model. rewrite Hentry.
  unfold mbind, io_bind, mret, io_ret.
  destruct (task_messages task) as [|m ms]; [done|].
  unfold raise. by rewrite IH.
Qed.

(** X12.  [process_batch_job] on a job that is served when it starts and
    still served when it ends leaves the job completed, never failed:
    [completed_at] is the end time, [started_at] is the start time unless it
    was set before, [error] is untouched, [chat_completion] has been called
    once per task, and for a job with tasks the results are those of the
    calls, one per task, with counts that add up to the number of tasks.  A
    job without tasks is completed with [results] left as it was.  The calls
    get the messages as the store returned them.  From the dictionary
    fallback these are the [Message] objects that were stored.  From Redis
    they are dictionaries: for a registered model the call for a task with a
    message raises [AttributeError] before it reaches the backend, so a job
    whose tasks all have messages ends completed with every task failed and
    the backend never called. *)
Theorem process_batch_job_completes batch_service t_start t_end job_id job_data w :
  get_job_status batch_service t_start job_id = Some job_data →
  served batch_service t_start t_end = true →
  let calls :=
    match batch_service with
    | WithRedis _ =>
        model_calls_dicts create clock uuid4_hex settings model_registry
          (model_id job_data) (max_tokens job_data) (temperature job_data)
          (top_p job_data) (tasks job_data) w
    | InMemory _ =>
        model_calls create clock uuid4_hex settings model_registry
          (model_id job_data) (max_tokens job_data) (temperature job_data)
          (top_p job_data) (tasks job_data) w
    end in
  let finished :=
    process_batch_job create clock uuid4_hex settings model_registry
      batch_service t_start t_end job_id w in
  finished.2 = calls.2 ∧
  length calls.1 = length (tasks job_data) ∧
  (∃ job_data',
     get_job_status finished.1 t_end job_id = Some job_data' ∧
     status job_data' = "completed" ∧
     completed_at job_data' = Some t_end ∧
     started_at job_data' =
       (if truthy (started_at job_data) then started_at job_data else Some t_start) ∧
     error job_data' = error job_data ∧
     results job_data' =
       match tasks job_data with
       | [] => results job_data
       | _ :: _ => Some (zip_with outcome_result (tasks job_data) calls.1)
       end ∧
     (tasks job_data ≠ [] →
        completed_count job_data' + failed_count job_data' =
        Z.of_nat (length (tasks job_data)))) ∧
  (∀ db, batch_service = WithRedis db →
     is_Some (models model_registry !! model_id job_data) →
     Forall (λ task, task_messages task ≠ []) (tasks job_data) →
     calls =
       ((λ _, inl (AttributeError "'dict' object has no attribute 'role'"))
          <$> tasks job_data, w)).
Proof.
  intros Hget Hserved calls finished.
  assert (Hcalls : calls =
            worker_calls create clock uuid4_hex settings model_registry batch_service
              (model_id job_data) (max_tokens job_data) (temperature job_data)
              (top_p job_data) (tasks job_data) w).
  { unfold calls, worker_calls. by destruct batch_service. }
  clearbody calls. subst calls.
  set (calls := worker_calls _ _ _ _ _ _ _ _ _ _ _ _).
  unfold finished, process_batch_job, process_batch_job_begin. rewrite Hget. cbn match.
  rewrite process_batch_job_end_eq, worker_calls_update_job_status. fold calls.
  cbn [fst snd].
  split; [done|].
  assert (Hlen : length calls.1 = length (tasks job_data)).
  { unfold calls. apply worker_calls_length. }
  split; [done|]. split.
  2:{ intros db -> [entry Hentry] Hall. unfold calls, worker_calls.
      by eapply model_calls_dicts_with_messages. }
  set (rs := zip_with outcome_result (tasks job_data) calls.1).
  set (job1 := updated_record job_data t_start "processing" None None).
  rewrite (update_job_status_eq batch_service), Hget. fold job1.
  rewrite update_job_status_eq, get_write_record_eq by done.
  rewrite get_write_record_eq by apply served_now.
  eexists. split; [done|].
  rewrite updated_record_status, updated_record_completed_at,
    updated_record_started_at, updated_record_error, updated_record_results,
    updated_record_completed_count, updated_record_failed_count.
  unfold job1.
  rewrite updated_record_started_at, updated_record_error, updated_record_results,
    updated_record_completed_count, updated_record_failed_count.
  cbn -[rs sum_ones].
  split; [done|]. split; [done|].
  split; [by destruct (truthy (started_at job_data))|].
  split; [done|].
  destruct (tasks job_data) as [|task rest] eqn:Hts.
  - assert (Hrs : rs = []) by (by apply zip_with_outcome_nil).
    rewrite Hrs. by split.
  - assert (Hrs : rs ≠ []).
    { intros Hnil. by apply zip_with_outcome_nil in Hnil. }
    destruct rs as [|r rs'] eqn:Hrs'; [done|]. rewrite <- Hrs'.
    assert (Htr : truthy rs = true) by (by rewrite Hrs').
    cbn [truthy truthy_option]. rewrite Htr.
    split; [done|]. intros _.
    rewrite sum_ones_split. unfold rs. rewrite length_zip_with, Hlen.
    f_equal. lia.
Qed.

End WholeJob.

(** The job of [redis_one_job], whose two tasks have a message each, for a
    registered model: completed, both tasks failed, and the backend, which
    counts its calls, not called. *)
Lemma process_batch_job_completes_witness :
  let finished :=
    sample_process_batch_job redis_one_job 2000 3000 "batch-0123456789ab" 0%nat in
  finished.2 = 0%nat ∧
  ∃ job_data',
    get_job_status finished.1 3000 "batch-0123456789ab" = Some job_data' ∧
    status job_data' = "completed" ∧
    completed_at job_data' = Some 3000 ∧
    started_at job_data' = Some 2000 ∧
    result_error <$> default [] (results job_data') =
      [ Some "'dict' object has no attribute 'role'";
        Some "'dict' object has no attribute 'role'" ] ∧
    completed_count job_data' + failed_count job_data' = 2.
Proof.
  intros finished.
  destruct (process_batch_job_completes sample_create sample_clock sample_uuid4_hex
              sample_settings sample_registry redis_one_job 2000 3000
              "batch-0123456789ab"
              (submitted_record 1000 "0123456789ab" "llama-7b" example_tasks
                 512 0.7%float 0.95%float None) 0%nat)
    as (Hworld & _ & (job_data' & Hget & Hst & Hat & Hstart & _ & Hres & Hcount) & Hredis).
  - vm_compute. reflexivity.
  - reflexivity.
  - split.
    + etrans; [exact Hworld|].
      refine (f_equal snd (Hredis _ eq_refl _ _)).
      * by eexists.
      * repeat constructor; discriminate.
    + exists job_data'. split; [exact Hget|]. split; [done|]. split; [done|].
      split; [exact Hstart|]. split; [|by apply Hcount].
      rewrite Hres. vm_compute. reflexivity.
Defined.

Lemma process_batch_job_absent_witness :
  sample_process_batch_job redis_one_job (1000 + 86400 + 1) (2000 + 86400)
    "batch-0123456789ab" 0%nat = (redis_one_job, 0%nat).
Proof.
  apply (process_batch_job_absent sample_create sample_clock sample_uuid4_hex
           sample_settings sample_registry).
  vm_compute. reflexivity.
Defined.

(** ** Statuses in the running system *)

Section Statuses.
Context {World : Type}.
Variable create :
  AsyncOpenAI → string → list Message → Z → float → float
  → IO World BackendResponse.
Variable clock : World → Z.
Variable uuid4_hex : World → string.
Variable settings : Settings.
Variable model_registry : ModelConfig.

Lemma step_written_status s s' :
  invariant s →
  step create clock uuid4_hex settings model_registry s s' →
  (∀ job_id job, stored (service s) job_id = Some job → written_status (status job)) →
  ∀ job_id job, stored (service s') job_id = Some job → written_status (status job).
Proof.
  intros Hinv Hstep Hold.
  destruct Hstep as [request now uuid_hex answered_at Hfresh | now job_id0 | now
                    | now job_id0 job_data before after Hflight];
    cbn [service]; intros job_id job.
  - destruct (submit_batch_generation_service model_registry request now uuid_hex
                answered_at (service s)) as [-> | ->]; [apply Hold|].
    rewrite stored_submit_batch_job. case_decide; [|apply Hold].
    intros [= <-]. by left.
  - apply Hold.
  - destruct Hinv as [Hdict Hqnd Hqq _ _ _].
    destruct (worker_poll_cases (service s) now Hdict Hqnd Hqq)
      as (_ & _ & [[_ Hsame] | (jid & j & _ & _ & _ & _ & Hnew & Hother)]).
    + rewrite Hsame. apply Hold.
    + destruct (decide (jid = job_id)) as [<- | Hne].
      * rewrite Hnew. intros [= <-]. rewrite updated_record_status. right. by left.
      * rewrite Hother by done. apply Hold.
  - rewrite process_batch_job_end_eq. cbn [fst].
    match goal with
    | |- context [update_job_status ?svc ?t ?k ?st ?res ?err] =>
        destruct (update_job_status_cases svc t k st res err)
          as [-> | (j & Hj & ->)]
    end; [apply Hold|].
    destruct (decide (job_id0 = job_id)) as [<- | Hne].
    + rewrite stored_write_record_eq. intros [= <-].
      rewrite updated_record_status. right. by right.
    + rewrite stored_write_record_ne by done. apply Hold.
Qed.

Lemma reachable_written_status s :
  reachable create clock uuid4_hex settings model_registry s →
  ∀ job_id job, stored (service s) job_id = Some job → written_status (status job).
Proof.
  intros (s0 & Hinit & Hsteps). revert s Hsteps.
  apply (rtc_ind_r (λ s, ∀ job_id job, stored (service s) job_id = Some job →
                                        written_status (status job)) s0).
  - destruct Hinit as [[Hsvc | Hsvc] _]; rewrite Hsvc; intros job_id job; simpl;
      [by rewrite lookup_empty | done].
  - intros s1 s2 Hsteps Hstep IH.
    apply (step_written_status s1 s2); [|done|done].
    apply (reachable_invariant create clock uuid4_hex settings model_registry).
    by exists s0.
Qed.

(** X13.  In every reachable state of the system (where the store and the
    logger do not raise) the status endpoint either answers 404 or answers a
    record whose status is queued, processing or completed: it never fails
    the validation of its response, and no job is ever reported failed,
    because the executor turns every model failure into a task result and
    the worker's [except] branch is not taken. *)
Theorem status_endpoint_in_reachable_states s t job_id :
  reachable create clock uuid4_hex settings model_registry s →
  get_batch_status (service s) t job_id =
    inl (RaisedHTTP {| status_code := 404; detail := "Job not found: " +:+ job_id |})
  ∨ ∃ response,
      get_batch_status (service s) t job_id = inr response ∧
      (bs_status response = "queued" ∨ bs_status response = "processing" ∨
       bs_status response = "completed").
Proof.
  intros Hreach. unfold get_batch_status.
  destruct (get_job_status (service s) t job_id) as [job_data|] eqn:Hget; [|by left].
  right. apply get_job_status_stored in Hget.
  pose proof (reachable_written_status s Hreach job_id job_data Hget) as Hst.
  assert (Hlit : status_literal (status job_data) = true).
  { by destruct Hst as [-> | [-> | ->]]. }
  rewrite Hlit. eexists. split; [done|]. exact Hst.
Qed.

End Statuses.

Lemma status_endpoint_in_reachable_states_witness :
  ∃ response,
    get_batch_status (service run3) 4000 "batch-0123456789ab" = inr response ∧
    bs_status response = "completed".
Proof.
  destruct (status_endpoint_in_reachable_states sample_create sample_clock
              sample_uuid4_hex sample_settings sample_registry run3 4000
              "batch-0123456789ab" run3_reachable)
    as [H404 | (response & Hresp & Hst)].
  - vm_compute in H404. discriminate H404.
  - exists response. split; [exact Hresp|].
    vm_compute in Hresp. injection Hresp as <-. reflexivity.
Defined.

(** ** The worker loop on its own *)

Lemma dict_set_keys_same d k v : k ∈ d.*1 → (dict_set d k v).*1 = d.*1.
Proof.
  induction d as [|[k0 v0] d IH]; [by intros ?%elem_of_nil|].
  cbn [dict_set]. rewrite fmap_cons. cbn [fst].
  destruct (decide (k0 = k)) as [->|Hne]; [done|].
  intros [?|Hin]%elem_of_cons; [congruence|].
  rewrite fmap_cons. cbn [fst]. by rewrite IH.
Qed.

Lemma dict_get_Some_key d k v : dict_get d k = Some v → k ∈ d.*1.
Proof.
  induction d as [|[k0 v0] d IH]; simpl; [done|].
  destruct (decide (k0 = k)) as [->|Hne]; [intros _; by left|].
  intros H. right. by apply IH.
Qed.

Lemma queued_count_dict_set d k v j :
  NoDup d.*1 → dict_get d k = Some j →
  (queued_count (dict_set d k v) + (if String.eqb (status j) "queued" then 1 else 0)
   = queued_count d + (if String.eqb (status v) "queued" then 1 else 0))%nat.
Proof.
  unfold queued_count.
  induction d as [|[k0 v0] d IH]; simpl; [done|].
  intros [Hnotin Hnd]%NoDup_cons.
  destruct (decide (k0 = k)) as [->|Hne].
  - intros [= ->]. simpl.
    destruct (String.eqb (status j) "queued"), (String.eqb (status v) "queued");
      simpl; lia.
  - intros Hget. specialize (IH Hnd Hget). simpl.
    destruct (String.eqb (status v0) "queued"); simpl; lia.
Qed.

Lemma queued_count_zero d k j :
  queued_count d = 0%nat → dict_get d k = Some j → status j ≠ "queued".
Proof.
  unfold queued_count.
  induction d as [|[k0 v0] d IH]; simpl; [done|].
  destruct (String.eqb (status v0) "queued") eqn:Hq; simpl; [done|].
  intros Hzero. destruct (decide (k0 = k)) as [->|Hne].
  - intros [= ->]. by apply String.eqb_neq.
  - by apply IH.
Qed.

Section LoopFacts.
Context {World : Type}.
Variable create :
  AsyncOpenAI → string → list Message → Z → float → float
  → IO World BackendResponse.
Variable clock : World → Z.
Variable uuid4_hex : World → string.
Variable settings : Settings.
Variable model_registry : ModelConfig.

Local Abbreviation iteration :=
  (worker_iteration create clock uuid4_hex settings model_registry).
Local Abbreviation whole_job :=
  (process_batch_job create clock uuid4_hex settings model_registry).

Lemma process_batch_job_redis db t_start t_end job_id w :
  ∃ ks, (whole_job (WithRedis db) t_start t_end job_id w).1 =
        WithRedis {| keyspace := ks; batch_queue := batch_queue db |}.
Proof.
  unfold process_batch_job, process_batch_job_begin.
  destruct (get_job_status (WithRedis db) t_start job_id) as [job|] eqn:Hget.
  2:{ exists (keyspace db). by destruct db. }
  cbn match. rewrite process_batch_job_end_eq. cbn [fst].
  rewrite (update_job_status_eq (WithRedis db)), Hget. cbn [write_record].
  rewrite update_job_status_eq.
  destruct (get_job_status _ t_end job_id); by eexists.
Qed.

Lemma worker_iteration_redis db t_start t_end w :
  ∃ ks, (iteration (WithRedis db) t_start t_end w).1 =
        WithRedis {| keyspace := ks;
                     batch_queue := take (length (batch_queue db) - 1) (batch_queue db) |}.
Proof.
  unfold worker_iteration. cbn [get_next_job].
  destruct (redis_rpop_cases db) as [[Hempty ->] | (x & front & Hq & ->)].
  - destruct db as [ks q]. cbn in Hempty. subst q. by exists ks.
  - assert (Htake : take (length (batch_queue db) - 1) (batch_queue db) = front).
    { rewrite Hq, length_app. cbn [length]. rewrite Nat.add_sub.
      by rewrite take_app_length. }
    rewrite Htake. destruct (truthy x); [|by eexists].
    apply (process_batch_job_redis {| keyspace := keyspace db; batch_queue := front |}).
Qed.

(** X14.  On Redis every turn of the worker loop takes exactly one id, the
    oldest, off the queue, whether or not its job is still served, and
    nothing puts an id back: after [n] turns the queue has lost its [n]
    oldest ids, and it is empty once there have been as many turns as ids. *)
Theorem worker_loop_consumes_queue times db w :
  ∃ ks, (worker_loop create clock uuid4_hex settings model_registry times
           (WithRedis db) w).1 =
        WithRedis {| keyspace := ks;
                     batch_queue :=
                       take (length (batch_queue db) - length times) (batch_queue db) |}.
Proof.
  revert db w. induction times as [|[t_start t_end] times IH]; intros db w.
  - exists (keyspace db). cbn [worker_loop fst length]. rewrite Nat.sub_0_r, firstn_all.
    by destruct db.
  - cbn [worker_loop].
    destruct (worker_iteration_redis db t_start t_end w) as [ks Hit].
    destruct (iteration (WithRedis db) t_start t_end w) as [svc w'].
    cbn [fst] in Hit. subst svc.
    destruct (IH {| keyspace := ks;
                    batch_queue := take (length (batch_queue db) - 1) (batch_queue db) |}
                 w') as [ks' Hloop].
    exists ks'. rewrite Hloop. cbn [batch_queue length].
    rewrite length_take, take_take. do 3 f_equal. lia.
Qed.

Lemma worker_iteration_in_memory jobs t_start t_end w :
  NoDup jobs.*1 → "" ∉ jobs.*1 →
  ∃ jobs',
    (iteration (InMemory jobs) t_start t_end w).1 = InMemory jobs' ∧
    jobs'.*1 = jobs.*1 ∧
    ((queued_count jobs = 0%nat ∧ jobs' = jobs) ∨
     (∃ k j j',
        dict_get jobs k = Some j ∧ status j = "queued" ∧
        dict_get jobs' k = Some j' ∧ status j' = "completed" ∧
        (∀ k', k ≠ k' → dict_get jobs' k' = dict_get jobs k') ∧
        (queued_count jobs' + 1 = queued_count jobs)%nat)).
Proof.
  intros Hnd Hkeys. unfold worker_iteration. cbn [get_next_job].
  destruct (first_queued jobs) as [k|] eqn:Hfirst.
  2:{ exists jobs. split; [done|]. split; [done|]. left.
      split; [by apply first_queued_None | done]. }
  destruct (first_queued_status jobs k Hnd Hfirst) as (j & Hget & Hst).
  assert (Hk : k ∈ jobs.*1) by (by eapply dict_get_Some_key).
  assert (Htruthy : truthy k = true).
  { destruct k; [done | done]. }
  rewrite Htruthy.
  unfold process_batch_job, process_batch_job_begin. cbn [get_job_status].
  rewrite Hget. cbn match. rewrite process_batch_job_end_eq. cbn [fst].
  set (rs := zip_with outcome_result _ _).
  set (j1 := updated_record j t_start "processing" None None).
  rewrite (update_job_status_eq (InMemory jobs)). cbn [get_job_status].
  rewrite Hget. fold j1. cbn [write_record].
  rewrite update_job_status_eq. cbn [get_job_status].
  rewrite dict_get_set_eq. cbn [write_record].
  set (j2 := updated_record j1 t_end "completed" (Some rs) None).
  assert (Hk1 : k ∈ (dict_set jobs k j1).*1) by (by rewrite dict_set_keys_same).
  eexists. split; [done|].
  split; [by rewrite !dict_set_keys_same|].
  right. exists k, j, j2.
  split; [done|]. split; [done|]. split; [apply dict_get_set_eq|].
  split; [apply updated_record_status|].
  split; [intros k' Hne; by rewrite !dict_get_set_ne|].
  pose proof (queued_count_dict_set jobs k j1 j Hnd Hget) as H1.
  assert (Hnd1 : NoDup (dict_set jobs k j1).*1) by (by apply dict_set_keys_unique).
  pose proof (queued_count_dict_set (dict_set jobs k j1) k j2 j1 Hnd1
                (dict_get_set_eq _ _ _)) as H2.
  assert (Hs1 : status j1 = "processing") by apply updated_record_status.
  assert (Hs2 : status j2 = "completed") by apply updated_record_status.
  rewrite Hs1, Hst in H1. rewrite Hs1, Hs2 in H2.
  change ("queued" =? "queued")%string with true in H1.
  change ("processing" =? "queued")%string with false in H1, H2.
  change ("completed" =? "queued")%string with false in H2.
  cbv iota in H1, H2. lia.
Qed.

(** X15.  On the dictionary fallback, with keys that are not empty, the
    worker loop works the queued jobs off one per turn: after at least as
    many turns as there are queued records no record is queued any more,
    every record that was queued is completed, and every other record is
    exactly as it was. *)
Theorem worker_loop_drains_dictionary times jobs w :
  NoDup jobs.*1 → "" ∉ jobs.*1 →
  (queued_count jobs ≤ length times)%nat →
  ∃ jobs',
    (worker_loop create clock uuid4_hex settings model_registry times
       (InMemory jobs) w).1 = InMemory jobs' ∧
    queued_count jobs' = 0%nat ∧
    ∀ k j, dict_get jobs k = Some j →
      ∃ j', dict_get jobs' k = Some j' ∧
            (status j = "queued" → status j' = "completed") ∧
            (status j ≠ "queued" → j' = j).
Proof.
  revert jobs w. induction times as [|[t_start t_end] times IH];
    intros jobs w Hnd Hkeys Hcount.
  - exists jobs. cbn [length] in Hcount.
    assert (Hzero : queued_count jobs = 0%nat) by lia.
    split; [done|]. split; [done|].
    intros k j Hget. exists j. split; [done|]. split; [|done].
    intros Hq. by apply (queued_count_zero jobs k j) in Hq.
  - cbn [worker_loop].
    destruct (worker_iteration_in_memory jobs t_start t_end w Hnd Hkeys)
      as (jobs1 & Hit & Hsame & Hcases).
    destruct (iteration (InMemory jobs) t_start t_end w) as [svc w'].
    cbn [fst] in Hit. subst svc.
    assert (Hnd1 : NoDup jobs1.*1) by (by rewrite Hsame).
    assert (Hkeys1 : "" ∉ jobs1.*1) by (by rewrite Hsame).
    cbn [length] in Hcount.
    destruct Hcases as [[Hzero ->] | (k0 & j0 & j0' & Hg0 & Hs0 & Hg0' & Hs0' & Hoth & Hdec)].
    + apply IH; [done | done | lia].
    + destruct (IH jobs1 w' Hnd1 Hkeys1) as (jobs' & Hloop & Hz & Hall); [lia|].
      exists jobs'. split; [done|]. split; [done|].
      intros k j Hget. destruct (decide (k0 = k)) as [<- | Hne].
      * rewrite Hg0 in Hget. injection Hget as <-.
        destruct (Hall k0 j0' Hg0') as (j' & Hj' & _ & Hkeep).
        exists j'. split; [done|]. split; [|done].
        intros _. rewrite Hkeep; [done|]. rewrite Hs0'. discriminate.
      * apply Hall. by rewrite Hoth.
Qed.

End LoopFacts.

Lemma worker_loop_drains_dictionary_witness :
  ∃ jobs',
    (worker_loop sample_create sample_clock sample_uuid4_hex sample_settings
       sample_registry [(2000, 3000)] dict_one_job 5%nat).1 = InMemory jobs' ∧
    queued_count jobs' = 0%nat ∧
    ∃ job, dict_get jobs' "batch-0123456789ab" = Some job ∧ status job = "completed".
Proof.
  destruct (worker_loop_drains_dictionary sample_create sample_clock sample_uuid4_hex
              sample_settings sample_registry [(2000, 3000)]
              [("batch-0123456789ab",
                submitted_record 1000 "0123456789ab" "llama-7b" example_tasks
                  512 0.7%float 0.95%float None)] 5%nat)
    as (jobs' & Hloop & Hzero & Hall).
  - apply NoDup_singleton.
  - intros Hin. apply list_elem_of_singleton in Hin. discriminate Hin.
  - vm_compute. lia.
  - exists jobs'. split; [exact Hloop|]. split; [exact Hzero|].
    destruct (Hall "batch-0123456789ab"
                (submitted_record 1000 "0123456789ab" "llama-7b" example_tasks
                   512 0.7%float 0.95%float None)) as (job & Hjob & Hdone & _).
    + vm_compute. reflexivity.
    + exists job. split; [exact Hjob|]. by apply Hdone.
Defined.

(** ** Strings *)

Lemma chars_of_chars l : chars (of_chars l) = l.
Proof. apply String.list_ascii_of_string_of_list_ascii. Qed.

Lemma of_chars_chars s : of_chars (chars s) = s.
Proof. apply String.string_of_list_ascii_of_string. Qed.

Lemma chars_inj s1 s2 : chars s1 = chars s2 → s1 = s2.
Proof. intros H. by rewrite <- (of_chars_chars s1), H, of_chars_chars. Qed.

Lemma chars_app s1 s2 : chars (s1 +:+ s2) = chars s1 ++ chars s2.
Proof. induction s1 as [|c s1 IH]; simpl; [done|]. by rewrite IH. Qed.

Lemma chars_nil s : chars s = [] ↔ s = "".
Proof. destruct s; simpl; naive_solver. Qed.

Lemma truthy_string_chars s : truthy s = negb (bool_decide (chars s = [])).
Proof. by destruct s. Qed.

Lemma lstrip_chars_nil l :
  lstrip_chars l = [] ↔ Forall (λ c, is_space c = true) l.
Proof.
  induction l as [|c l IH]; simpl; [by split; [constructor|]|].
  destruct (is_space c) eqn:Hc.
  - rewrite IH. split; [by constructor | by intros [_ ?]%Forall_cons].
  - split; [done|]. intros [? _]%Forall_cons. congruence.
Qed.

Lemma lstrip_chars_suffix l :
  ∃ spaces, l = spaces ++ lstrip_chars l ∧ Forall (λ c, is_space c = true) spaces.
Proof.
  induction l as [|c l (spaces & Hl & Hsp)]; simpl; [by exists []|].
  destruct (is_space c) eqn:Hc.
  - exists (c :: spaces). split; [simpl; congruence | by constructor].
  - by exists [].
Qed.

Lemma lstrip_chars_head l c r : lstrip_chars l = c :: r → is_space c = false.
Proof.
  induction l as [|c0 l IH]; simpl; [done|].
  destruct (is_space c0) eqn:Hc; [done|]. by intros [= <- _].
Qed.

Lemma lstrip_chars_fixed l :
  lstrip_chars l = l ↔ l = [] ∨ ∃ c r, l = c :: r ∧ is_space c = false.
Proof.
  split.
  - destruct l as [|c r]; [by left|]. intros H. right. exists c, r.
    split; [done|]. by apply (lstrip_chars_head (c :: r) c r).
  - intros [-> | (c & r & -> & Hc)]; simpl; [done|]. by rewrite Hc.
Qed.

Lemma lstrip_chars_idemp l : lstrip_chars (lstrip_chars l) = lstrip_chars l.
Proof.
  apply lstrip_chars_fixed. destruct (lstrip_chars l) as [|c r] eqn:H; [by left|].
  right. exists c, r. split; [done|]. by eapply lstrip_chars_head.
Qed.

Lemma strip_chars_nil l :
  strip_chars l = [] ↔ Forall (λ c, is_space c = true) l.
Proof.
  unfold strip_chars. split.
  - intros H. apply (f_equal reverse) in H. rewrite reverse_involutive in H.
    cbn in H. apply lstrip_chars_nil in H. rewrite Forall_reverse in H.
    destruct (lstrip_chars_suffix l) as (spaces & Hl & Hsp).
    rewrite Hl. apply Forall_app. by split.
  - intros H. apply lstrip_chars_nil in H. by rewrite H.
Qed.

Lemma strip_chars_trimmed l : trimmed (strip_chars l).
Proof.
  unfold trimmed, strip_chars. rewrite reverse_involutive.
  split; [|apply lstrip_chars_idemp].
  set (m := lstrip_chars l).
  assert (Hm : lstrip_chars m = m) by apply lstrip_chars_idemp.
  destruct (lstrip_chars_suffix (reverse m)) as (spaces & Hrev & Hsp).
  set (s := lstrip_chars (reverse m)) in *.
  apply (f_equal reverse) in Hrev. rewrite reverse_involutive, reverse_app in Hrev.
  apply lstrip_chars_fixed.
  destruct (reverse s) as [|c r] eqn:Hs; [by left|]. right. exists c, r.
  split; [done|].
  apply lstrip_chars_fixed in Hm as [Hm | (c' & r' & Hm & Hc')].
  - rewrite Hm in Hrev. by destruct (reverse spaces).
  - rewrite Hm in Hrev. simpl in Hrev. by injection Hrev as -> _.
Qed.

Lemma strip_chars_of_trimmed l : trimmed l → strip_chars l = l.
Proof. intros [H1 H2]. unfold strip_chars. by rewrite H1, H2, reverse_involutive. Qed.

Lemma strip_chars_keeps (P : ascii → Prop) l : Forall P l → Forall P (strip_chars l).
Proof.
  intros H. unfold strip_chars. apply Forall_reverse.
  destruct (lstrip_chars_suffix (reverse (lstrip_chars l))) as (sp & Hl & _).
  destruct (lstrip_chars_suffix l) as (sp' & Hl' & _).
  rewrite Hl' in H. apply Forall_app in H as [_ H].
  apply Forall_reverse in H. rewrite Hl in H. by apply Forall_app in H as [_ H].
Qed.

Lemma split_chars_nonempty sep l : split_chars sep l ≠ [].
Proof.
  destruct l as [|c l]; simpl; [done|].
  destruct (decide (c = sep)); [done|]. by destruct (split_chars sep l).
Qed.

Lemma split_chars_pieces (P : ascii → Prop) sep l :
  Forall (Forall P) (split_chars sep l) ↔ Forall (λ c, c = sep ∨ P c) l.
Proof.
  induction l as [|c l IH]; simpl.
  - split; [by constructor | intros _; by repeat constructor].
  - destruct (decide (c = sep)) as [->|Hne].
    + rewrite (Forall_cons (Forall P)), IH, (Forall_cons (λ c, c = sep ∨ P c)).
      split; [intros [_ ?]; split; [by left | done] | intros [_ ?]; by split].
    + pose proof (split_chars_nonempty sep l) as Hne'.
      destruct (split_chars sep l) as [|piece pieces]; [done|].
      rewrite (Forall_cons (Forall P)) in IH.
      rewrite (Forall_cons (Forall P)), (Forall_cons P),
        (Forall_cons (λ c, c = sep ∨ P c)), <- IH.
      naive_solver.
Qed.

Lemma split_chars_no_sep sep l : Forall (λ piece, sep ∉ piece) (split_chars sep l).
Proof.
  assert (H : Forall (Forall (λ c, c ≠ sep)) (split_chars sep l)).
  { apply split_chars_pieces. apply Forall_forall. intros c _.
    destruct (decide (c = sep)); [by left | by right]. }
  eapply Forall_impl; [exact H|]. intros piece Hp Hin.
  by apply (proj1 (Forall_forall _ _) Hp sep Hin).
Qed.

Lemma split_chars_single sep l : sep ∉ l → split_chars sep l = [l].
Proof.
  induction l as [|c l IH]; simpl; [done|].
  intros Hnotin. apply not_elem_of_cons in Hnotin as [Hne Hnotin].
  rewrite decide_False by done. by rewrite IH.
Qed.

Lemma split_chars_app sep l rest :
  sep ∉ l → split_chars sep (l ++ sep :: rest) = l :: split_chars sep rest.
Proof.
  induction l as [|c l IH]; simpl; [by rewrite decide_True|].
  intros Hnotin. apply not_elem_of_cons in Hnotin as [Hne Hnotin].
  rewrite decide_False by done. by rewrite IH.
Qed.

Lemma chars_strip s : chars (strip s) = strip_chars (chars s).
Proof. unfold strip. apply chars_of_chars. Qed.

Lemma strip_empty s : strip s = "" ↔ Forall (λ c, is_space c = true) (chars s).
Proof. rewrite <- chars_nil, chars_strip. apply strip_chars_nil. Qed.

Lemma strip_idemp s : strip (strip s) = strip s.
Proof.
  apply chars_inj. rewrite !chars_strip.
  apply strip_chars_of_trimmed, strip_chars_trimmed.
Qed.

Lemma truthy_string_true (s : string) : truthy s = true ↔ s ≠ "".
Proof. destruct s; simpl; naive_solver. Qed.

Lemma filter_nil {A} (f : A → bool) (l : list A) :
  List.filter f l = [] ↔ Forall (λ x, f x = false) l.
Proof.
  induction l as [|x l IH]; simpl; [by split; [constructor|]|].
  destruct (f x) eqn:Hx.
  - split; [done|]. intros [? _]%Forall_cons. congruence.
  - rewrite IH. split; [by constructor | by intros [_ ?]%Forall_cons].
Qed.

Lemma filter_all {A} (f : A → bool) (l : list A) :
  Forall (λ x, f x = true) l → List.filter f l = l.
Proof.
  induction 1 as [|x l Hx _ IH]; simpl; [done|]. by rewrite Hx, IH.
Qed.

(** ** API keys *)

Lemma elem_of_get_api_keys setting key :
  key ∈ get_api_keys setting →
  key ≠ "" ∧ ∃ piece, piece ∈ split_chars "," (chars setting) ∧
                      key = strip (of_chars piece).
Proof.
  unfold get_api_keys. destruct (negb (truthy setting)); [by intros ?%elem_of_nil|].
  rewrite list_elem_of_In, filter_In, <- list_elem_of_In.
  intros [Hin Htruthy]. split; [by apply truthy_string_true|].
  unfold split in Hin. rewrite <- list_fmap_compose in Hin.
  apply list_elem_of_fmap in Hin as (piece & -> & Hin). by exists piece.
Qed.

(** X16.  Every key that [get_api_keys] returns is not empty, has no
    whitespace at either end and contains no comma. *)
Theorem get_api_keys_valid setting key :
  key ∈ get_api_keys setting → valid_key key.
Proof.
  intros (Hne & piece & Hpiece & ->)%elem_of_get_api_keys.
  split; [done|]. split; [apply strip_idemp|].
  rewrite chars_strip, chars_of_chars.
  pose proof (split_chars_no_sep "," (chars setting)) as Hsep.
  pose proof (proj1 (Forall_forall _ _) Hsep piece Hpiece) as Hnotin.
  assert (Hall : Forall (λ c, c ≠ ","%char) piece).
  { apply Forall_forall. intros c Hc ->. done. }
  apply (strip_chars_keeps _ piece) in Hall.
  intros Hin. by apply (proj1 (Forall_forall _ _) Hall ","%char Hin).
Qed.

Lemma get_api_keys_valid_witness : valid_key "k2".
Proof.
  apply (get_api_keys_valid " k1 , ,k2,"). vm_compute.
  apply list_elem_of_In. right. left. reflexivity.
Defined.

Lemma split_chars_join keys :
  keys ≠ [] → Forall valid_key keys →
  split_chars "," (chars (join "," keys)) = chars <$> keys.
Proof.
  induction keys as [|key keys IH]; [done|]. intros _ [Hkey Hkeys]%Forall_cons.
  destruct Hkey as (_ & _ & Hcomma).
  destruct keys as [|key2 keys].
  - cbn [join]. by rewrite split_chars_single.
  - change (join "," (key :: key2 :: keys))
      with (key +:+ "," +:+ join "," (key2 :: keys)).
    rewrite !chars_app. cbn [chars String.list_ascii_of_string app].
    rewrite split_chars_app by done. by rewrite IH.
Qed.

(** X17.  Round trip: a list of keys that are not empty, have no whitespace
    at either end and contain no comma, written as one comma-separated
    setting, is read back by [get_api_keys] as the same list. *)
Theorem get_api_keys_join keys :
  Forall valid_key keys → get_api_keys (join "," keys) = keys.
Proof.
  intros Hkeys. destruct keys as [|key keys]; [done|].
  unfold get_api_keys.
  assert (Htruthy : truthy (join "," (key :: keys)) = true).
  { apply Forall_cons in Hkeys as [(Hne & _) _]. apply truthy_string_true.
    destruct keys; cbn [join]; [done|]. by destruct key. }
  rewrite Htruthy. cbn [negb]. unfold split.
  rewrite split_chars_join by done.
  rewrite <- !list_fmap_compose.
  assert (Hid : (strip ∘ of_chars ∘ chars) <$> (key :: keys) = key :: keys).
  { clear Htruthy. induction Hkeys as [|k ks (_ & Hstrip & _) _ IH]; [done|].
    rewrite fmap_cons, IH. cbn. by rewrite of_chars_chars, Hstrip. }
  change (strip ∘ (of_chars ∘ chars)) with (strip ∘ of_chars ∘ chars).
  rewrite Hid. apply filter_all.
  eapply Forall_impl; [exact Hkeys|]. intros k (Hne & _). by apply truthy_string_true.
Qed.

Lemma get_api_keys_join_witness :
  get_api_keys (join "," ["sk-alpha"; "sk-beta"]) = ["sk-alpha"; "sk-beta"].
Proof.
  apply get_api_keys_join.
  repeat constructor; try discriminate; try (vm_compute; reflexivity);
    vm_compute; intros Hin; apply list_elem_of_In in Hin; simpl in Hin;
    repeat (destruct Hin as [Hin | Hin]; [discriminate Hin|]); exact Hin.
Defined.

Lemma get_api_keys_nil setting :
  get_api_keys setting = [] ↔
  Forall (λ c, c = ","%char ∨ is_space c = true) (chars setting).
Proof.
  unfold get_api_keys. destruct setting as [|c setting].
  { split; [by constructor | done]. }
  cbn [truthy truthy_string negb].
  rewrite filter_nil, <- (split_chars_pieces (λ c, is_space c = true)).
  unfold split. rewrite <- list_fmap_compose, Forall_fmap.
  apply Forall_iff. intros piece. cbn.
  rewrite <- strip_chars_nil.
  assert (Hchars : chars (strip (of_chars piece)) = strip_chars piece).
  { by rewrite chars_strip, chars_of_chars. }
  rewrite <- Hchars, chars_nil.
  destruct (strip (of_chars piece)); simpl; naive_solver.
Qed.

(** ** Authentication *)

(** X18.  Authentication is off exactly when the key setting holds nothing
    but commas and whitespace (the empty setting included): then, and only
    then, [verify_api_key] accepts every token and answers ["dev-mode"]. *)
Theorem dev_mode_iff setting :
  (∀ token, verify_api_key setting token = inr "dev-mode") ↔
  Forall (λ c, c = ","%char ∨ is_space c = true) (chars setting).
Proof.
  rewrite <- get_api_keys_nil. unfold verify_api_key. split.
  - intros Hall. specialize (Hall "").
    destruct (get_api_keys setting) as [|key keys] eqn:Hkeys; [done|].
    cbn [truthy truthy_list negb] in Hall.
    destruct (bool_decide ("" ∈ key :: keys)) eqn:Hin; [|done].
    apply bool_decide_eq_true in Hin. rewrite <- Hkeys in Hin.
    by apply get_api_keys_valid in Hin as [? _].
  - by intros ->.
Qed.

(** X19.  When keys are configured, [verify_api_key] answers the token
    itself for a token that is one of the keys and the 401 error for every
    other token; so the empty token, a token with a comma and a token with
    whitespace at either end are always refused. *)
Theorem verify_api_key_configured setting token :
  get_api_keys setting ≠ [] →
  let refused :=
    inl {| unauthorized := {| status_code := 401; detail := "Invalid API key" |};
           unauthorized_headers := [("WWW-Authenticate", "Bearer")] |} in
  (token ∈ get_api_keys setting → verify_api_key setting token = inr token) ∧
  (token ∉ get_api_keys setting → verify_api_key setting token = refused) ∧
  (token = "" ∨ ","%char ∈ chars token ∨ strip token ≠ token →
   verify_api_key setting token = refused).
Proof.
  intros Hkeys refused. unfold verify_api_key.
  assert (Htruthy : truthy (get_api_keys setting) = true).
  { by destruct (get_api_keys setting). }
  rewrite Htruthy. cbn [negb].
  assert (Hno : token ∉ get_api_keys setting →
                (if negb (bool_decide (token ∈ get_api_keys setting))
                 then refused else inr token) = refused).
  { intros Hnotin. by rewrite bool_decide_false. }
  split; [intros Hin; by rewrite bool_decide_true|]. split; [exact Hno|].
  intros Hbad. apply Hno. intros (Hne & Hstrip & Hcomma)%get_api_keys_valid.
  naive_solver.
Qed.

Lemma verify_api_key_configured_witness :
  verify_api_key "k1, k2" "k2" = inr "k2" ∧
  verify_api_key "k1, k2" " k2" =
    inl {| unauthorized := {| status_code := 401; detail := "Invalid API key" |};
           unauthorized_headers := [("WWW-Authenticate", "Bearer")] |}.
Proof.
  destruct (verify_api_key_configured "k1, k2" "k2") as (Hyes & _ & _);
    [vm_compute; discriminate|].
  destruct (verify_api_key_configured "k1, k2" " k2") as (_ & _ & Hbad);
    [vm_compute; discriminate|].
  split.
  - apply Hyes. vm_compute. apply list_elem_of_In. right. left. reflexivity.
  - apply Hbad. right. right. vm_compute. discriminate.
Defined.

(** X20.  [get_optional_api_key] agrees with [verify_api_key]: for given
    credentials it returns a key exactly when [verify_api_key] returns that
    key, and [None] when [verify_api_key] refuses; without credentials it
    returns [None]. *)
Theorem get_optional_api_key_agrees setting token :
  get_optional_api_key setting None = None ∧
  get_optional_api_key setting (Some token) =
    match verify_api_key setting token with
    | inr key => Some key
    | inl _ => None
    end.
Proof.
  split; [done|]. unfold get_optional_api_key, verify_api_key.
  destruct (negb (truthy (get_api_keys setting))); [done|].
  by destruct (bool_decide (token ∈ get_api_keys setting)).
Qed.

(** ** Masked keys *)

Lemma mask_long prefix suffix :
  length (chars suffix) = 4%nat → prefix ≠ "" →
  _mask_api_key (prefix +:+ suffix) = "****" +:+ suffix.
Proof.
  intros Hlen Hne. unfold _mask_api_key, len, last_chars.
  rewrite chars_app, length_app, Hlen.
  assert (Hpos : (0 < length (chars prefix))%nat).
  { destruct prefix; [done|]. simpl. lia. }
  rewrite (proj2 (Z.leb_gt _ _)) by lia.
  rewrite Nat.add_sub, drop_app_length. by rewrite of_chars_chars.
Qed.

(** X21.  [_mask_api_key] shows the last four characters of a key and
    nothing else: a key of at most four characters is masked as ["****"],
    and a longer key as ["****"] followed by its last four characters,
    whatever comes before them. *)
Theorem mask_shows_last_four_only api_key :
  (len api_key ≤ 4 → _mask_api_key api_key = "****") ∧
  ∀ prefix suffix,
    api_key = prefix +:+ suffix → length (chars suffix) = 4%nat → prefix ≠ "" →
    _mask_api_key api_key = "****" +:+ suffix.
Proof.
  split.
  - intros Hlen. unfold _mask_api_key. by rewrite (proj2 (Z.leb_le _ _)).
  - intros prefix suffix -> Hlen Hne. by apply mask_long.
Qed.

(** X22.  Masking is idempotent, and a masked key has four or eight
    characters. *)
Theorem mask_idempotent api_key :
  _mask_api_key (_mask_api_key api_key) = _mask_api_key api_key ∧
  (len (_mask_api_key api_key) = 4 ∨ len (_mask_api_key api_key) = 8).
Proof.
  destruct (len api_key <=? 4) eqn:Hlen.
  - assert (Hmask : _mask_api_key api_key = "****").
    { unfold _mask_api_key. by rewrite Hlen. }
    rewrite Hmask. split; [done | by left].
  - assert (Hmask : _mask_api_key api_key = "****" +:+ last_chars 4 api_key).
    { unfold _mask_api_key. by rewrite Hlen. }
    apply Z.leb_gt in Hlen. unfold len in Hlen.
    assert (Hfour : length (chars (last_chars 4 api_key)) = 4%nat).
    { unfold last_chars. rewrite chars_of_chars, length_drop. lia. }
    rewrite Hmask. split; [by apply mask_long|].
    right. unfold len. rewrite chars_app, length_app, Hfour. done.
Qed.

(** ** Loading the registry *)

Lemma env_reference v :
  startswith ("${" +:+ v +:+ "}") "${" = true ∧
  endswith ("${" +:+ v +:+ "}") "}" = true ∧
  slice_inner 2 1 ("${" +:+ v +:+ "}") = v.
Proof.
  unfold startswith, endswith, slice_inner.
  rewrite !chars_app. cbn [chars String.list_ascii_of_string app length].
  fold (chars v). rewrite length_app. cbn [length].
  replace (length (chars v) + 1 - 1)%nat with (length (chars v)) by lia.
  split; [by apply bool_decide_eq_true|]. split.
  - apply andb_true_iff. split; apply bool_decide_eq_true; [|lia].
    change ("$"%char :: "{"%char :: chars v ++ ["}"%char])
      with (("$"%char :: "{"%char :: chars v) ++ ["}"%char]).
    replace (S (S (length (chars v) + 1)) - 1)%nat
      with (length ("$"%char :: "{"%char :: chars v)) by (simpl; lia).
    by rewrite drop_app_length.
  - replace (S (S (length (chars v) + 1)) - 1)%nat
      with (length ("$"%char :: "{"%char :: chars v)) by (simpl; lia).
    change ("$"%char :: "{"%char :: chars v ++ ["}"%char])
      with (("$"%char :: "{"%char :: chars v) ++ ["}"%char]).
    rewrite take_app_length. cbn [drop]. apply of_chars_chars.
Qed.

(** X23.  Loading keeps the model ids and, for every model, its
    [model_name], [backend_type] and [timeout].  A [base_url] written
    [${VAR}] becomes the value of the environment variable [VAR], or the
    empty string when it is not set; a [base_url] that does not both start
    with [${] and end with [}] is kept; a missing [base_url] stays
    missing. *)
Theorem load_config_substitutes getenv config_models model_id :
  match config_models !! model_id with
  | None => get_model (_load_config getenv config_models) model_id = None
  | Some entry =>
      ∃ loaded,
        get_model (_load_config getenv config_models) model_id = Some loaded ∧
        model_name loaded = model_name entry ∧
        backend_type loaded = backend_type entry ∧
        timeout loaded = timeout entry ∧
        (∀ v, base_url entry = Some ("${" +:+ v +:+ "}") →
              base_url loaded = Some (default "" (getenv v))) ∧
        (∀ url, base_url entry = Some url →
                startswith url "${" = false ∨ endswith url "}" = false →
                base_url loaded = Some url) ∧
        (base_url entry = None → base_url loaded = None)
  end.
Proof.
  unfold get_model, _load_config. cbn [models]. rewrite lookup_fmap.
  destruct (config_models !! model_id) as [entry|]; [|done]. cbn.
  eexists. split; [done|]. unfold substitute_base_url.
  destruct (base_url entry) as [url|] eqn:Hurl.
  - destruct (startswith url "${" && endswith url "}") eqn:Hform.
    + cbn. repeat split; try done.
      * intros v [= ->]. destruct (env_reference v) as (_ & _ & ->). done.
      * intros url' [= <-] [H | H]; rewrite H in Hform;
          [done | by rewrite andb_false_r in Hform].
    + repeat split; try done.
      * intros v [= ->].
        destruct (env_reference v) as (H1 & H2 & _). by rewrite H1, H2 in Hform.
      * by intros url' [= <-] _.
  - repeat split; done.
Qed.

(** ** The client *)

Section ClientFacts.
Context {World : Type}.
Variable create :
  AsyncOpenAI → string → list Message → Z → float → float
  → IO World BackendResponse.
Variable clock : World → Z.
Variable uuid4_hex : World → string.
Variable settings : Settings.
Variable model_registry : ModelConfig.

Lemma get_client_registered_aux model_id entry (w : World) :
  models model_registry !! model_id = Some entry →
  ∃ client, _get_client settings model_registry model_id w = (inr client, w).
Proof.
  intros Hentry. unfold _get_client, get_model. rewrite Hentry. by eexists.
Qed.

(** X24.  For a registered model [_get_client] builds a client without
    touching the outside world.  The client's key is never empty: it is the
    configured OpenAI key only for a model of backend type [openai] and a
    key that is not empty, and ["dummy-key"] otherwise.  Its [base_url] is
    the entry's, with a missing or empty one passed as [None]; its timeout
    is the entry's, or 60 seconds. *)
Theorem get_client_registered model_id entry (w : World) :
  models model_registry !! model_id = Some entry →
  ∃ client,
    _get_client settings model_registry model_id w = (inr client, w) ∧
    client_api_key client ≠ "" ∧
    (client_api_key client =
       if bool_decide (backend_type entry = Some "openai")
       then match openai_api_key settings with
            | Some key => if bool_decide (key = "") then "dummy-key" else key
            | None => "dummy-key"
            end
       else "dummy-key") ∧
    client_base_url client ≠ Some "" ∧
    (client_base_url client =
       match base_url entry with
       | Some "" | None => None
       | Some url => Some url
       end) ∧
    client_timeout client = default 60%float (timeout entry).
Proof.
  intros Hentry. unfold _get_client, get_model. rewrite Hentry.
  eexists. split; [reflexivity|]. cbn [client_api_key client_base_url client_timeout].
  assert (Hkey : or_default (openai_api_key settings) "dummy-key" =
                 match openai_api_key settings with
                 | Some key => if bool_decide (key = "") then "dummy-key" else key
                 | None => "dummy-key"
                 end).
  { unfold or_default. destruct (openai_api_key settings) as [[|c key]|]; done. }
  assert (Hkey_ne : or_default (openai_api_key settings) "dummy-key" ≠ "").
  { intros Hempty.
    pose proof (or_default_truthy (openai_api_key settings) "dummy-key" eq_refl) as Ht.
    by rewrite Hempty in Ht. }
  assert (Hbackend :
            String.eqb (default "openai_compatible" (backend_type entry)) "openai" =
            bool_decide (backend_type entry = Some "openai")).
  { destruct (backend_type entry) as [b|]; [|reflexivity]. cbn [default]. unfold id.
    destruct (String.eqb_spec b "openai") as [-> | Hne].
    - by rewrite bool_decide_true.
    - rewrite bool_decide_false; [done|]. by intros [= ->]. }
  rewrite Hbackend, Hkey.
  split.
  { destruct (bool_decide (backend_type entry = Some "openai")); [|done].
    by rewrite <- Hkey. }
  split; [done|].
  split; [by destruct (base_url entry) as [[|c url]|]|].
  split; [by destruct (base_url entry) as [[|c url]|]|done].
Qed.

(** What [chat_completion] does for a registered model, in terms of the
    one backend call it makes. *)
Lemma chat_completion_registered model_id entry messages mt temp tp (w : World) :
  models model_registry !! model_id = Some entry →
  ∃ client,
    _get_client settings model_registry model_id w = (inr client, w) ∧
    chat_completion create clock uuid4_hex settings model_registry
      model_id messages mt temp tp w =
    match create client (model_name entry) messages mt temp tp w with
    | (inl e, w') =>
        (inl (RuntimeError ("Error calling model " +:+ model_id +:+ ": " +:+ exn_str e)),
         w')
    | (inr response, w') =>
        match br_choices response with
        | [] =>
            (inl (RuntimeError ("Error calling model " +:+ model_id +:+ ": " +:+
                                exn_str IndexError)), w')
        | first :: _ =>
            (inr {| resp_id := "chatcmpl-" +:+ uuid4_hex w';
                    resp_model := model_id;
                    resp_created := clock w;
                    resp_choices :=
                      [ {| choice_index := 0;
                           choice_message :=
                             {| role := "assistant";
                                content := or_default (bc_content first) "" |};
                           finish_reason := bc_finish_reason first |} ];
                    resp_usage :=
                      match br_usage response with
                      | Some u => u
                      | None =>
                          {| prompt_tokens := 0; completion_tokens := 0;
                             total_tokens := 0 |}
                      end |}, w')
        end
    end.
Proof.
  intros Hentry.
  destruct (get_client_registered_aux model_id entry w Hentry) as (client & Hclient).
  exists client. split; [done|].
  unfold chat_completion, get_model. rewrite Hentry.
  unfold mbind, io_bind at 1. rewrite Hclient.
  unfold mbind, io_bind, time_time, try_except, uuid4, index0, raise, mret, io_ret.
  destruct (create client (model_name entry) messages mt temp tp w)
    as [[e|response] w']; [done|].
  destruct (br_choices response) as [|first others]; [done|].
  by destruct (br_usage response) as [[? ? ?]|].
Qed.

Lemma chat_completion_unregistered model_id messages mt temp tp (w : World) :
  models model_registry !! model_id = None →
  chat_completion create clock uuid4_hex settings model_registry
    model_id messages mt temp tp w =
  (inl (ValueError ("Unknown model: " +:+ model_id)), w).
Proof. intros Hnone. unfold chat_completion, get_model. by rewrite Hnone. Qed.

(** X25.  When [chat_completion] raises, it is either for a model that is
    not registered, with [ValueError("Unknown model: ...")] and without any
    call to the backend, or for a registered model, and then always a
    [RuntimeError] whose message starts with
    ["Error calling model <id>: "]. *)
Theorem chat_completion_raises model_id messages mt temp tp (w w' : World) e :
  chat_completion create clock uuid4_hex settings model_registry
    model_id messages mt temp tp w = (inl e, w') →
  match models model_registry !! model_id with
  | None => e = ValueError ("Unknown model: " +:+ model_id) ∧ w' = w
  | Some _ =>
      exn_class e = "RuntimeError" ∧
      ∃ msg, exn_str e = "Error calling model " +:+ model_id +:+ ": " +:+ msg
  end.
Proof.
  destruct (models model_registry !! model_id) as [entry|] eqn:Hentry.
  - destruct (chat_completion_registered model_id entry messages mt temp tp w Hentry)
      as (client & _ & ->).
    destruct (create client (model_name entry) messages mt temp tp w)
      as [[e0|response] w0].
    + intros [= <- <-]. split; [done|]. by eexists.
    + destruct (br_choices response); [|done].
      intros [= <- <-]. split; [done|]. by eexists.
  - rewrite chat_completion_unregistered by done. by intros [= <- <-].
Qed.

(** X26.  When [chat_completion] returns, the model is registered and the
    response carries the requested model id, the clock reading taken before
    the call, an id ["chatcmpl-" + hex], and exactly one choice, with index
    0 and the role [assistant]. *)
Theorem chat_completion_returns model_id messages mt temp tp (w w' : World) response :
  chat_completion create clock uuid4_hex settings model_registry
    model_id messages mt temp tp w = (inr response, w') →
  is_Some (models model_registry !! model_id) ∧
  resp_model response = model_id ∧
  resp_created response = clock w ∧
  resp_id response = "chatcmpl-" +:+ uuid4_hex w' ∧
  ∃ choice,
    resp_choices response = [choice] ∧
    choice_index choice = 0 ∧
    role (choice_message choice) = "assistant".
Proof.
  destruct (models model_registry !! model_id) as [entry|] eqn:Hentry.
  - destruct (chat_completion_registered model_id entry messages mt temp tp w Hentry)
      as (client & _ & ->).
    destruct (create client (model_name entry) messages mt temp tp w)
      as [[e0|bresp] w0]; [done|].
    destruct (br_choices bresp); [done|].
    intros [= <- <-]. split; [by eexists|]. cbn. repeat split. by eexists.
  - by rewrite chat_completion_unregistered.
Qed.

Lemma model_calls_unregistered model_id mt temp tp tasks (w : World) :
  models model_registry !! model_id = None →
  model_calls create clock uuid4_hex settings model_registry
    model_id mt temp tp tasks w =
  ((λ _, inl (ValueError ("Unknown model: " +:+ model_id))) <$> tasks, w).
Proof.
  intros Hnone. induction tasks as [|task rest IH]; [done|].
  cbn [model_calls]. rewrite chat_completion_unregistered by done.
  by rewrite IH.
Qed.

(** X27.  A batch for a model that is not registered makes no call to the
    backend and does not raise: every task gets the failed result with the
    error ["Unknown model: <id>"]. *)
Theorem batch_for_unregistered_model model_id tasks mt temp tp (w : World) :
  models model_registry !! model_id = None →
  batch_chat_completion create clock uuid4_hex settings model_registry
    model_id tasks mt temp tp w =
  (inr ((λ task,
           {| result_id := task_id task;
              result_output := "";
              result_usage :=
                {| prompt_tokens := 0; completion_tokens := 0; total_tokens := 0 |};
              result_error := Some ("Unknown model: " +:+ model_id) |}) <$> tasks),
   w).
Proof.
  intros Hnone. rewrite batch_chat_completion_eq.
  rewrite model_calls_unregistered by done. cbn [fst snd]. f_equal. f_equal.
  induction tasks as [|task rest IH]; [done|].
  rewrite !fmap_cons. cbn [zip_with]. by rewrite IH.
Qed.

End ClientFacts.

Lemma get_client_registered_witness :
  ∃ client,
    _get_client sample_settings sample_registry "llama-7b" 0%nat = (inr client, 0%nat) ∧
    client_api_key client = "dummy-key" ∧
    client_base_url client = None.
Proof.
  destruct (get_client_registered sample_settings sample_registry "llama-7b"
              {| model_name := "llama"; backend_type := None; base_url := None;
                 timeout := None |} 0%nat)
    as (client & Hclient & _ & Hkey & _ & Hurl & _).
  - vm_compute. reflexivity.
  - exists client. split; [exact Hclient|]. split; [exact Hkey | exact Hurl].
Defined.

Lemma chat_completion_raises_witness :
  ∃ e msg,
    chat_completion sample_create sample_clock sample_uuid4_hex sample_settings
      sample_registry "llama-7b" [] 512 0.7%float 0.95%float 1%nat
    = (inl e, 2%nat) ∧
    exn_class e = "RuntimeError" ∧
    exn_str e = "Error calling model " +:+ "llama-7b" +:+ ": " +:+ msg.
Proof.
  assert (Hcall :
    chat_completion sample_create sample_clock sample_uuid4_hex sample_settings
      sample_registry "llama-7b" [] 512 0.7%float 0.95%float 1%nat
    = (inl (RuntimeError "Error calling model llama-7b: connection reset"), 2%nat))
    by (vm_compute; reflexivity).
  destruct (chat_completion_raises sample_create sample_clock sample_uuid4_hex
              sample_settings sample_registry "llama-7b" [] 512 0.7%float 0.95%float
              1%nat 2%nat _ Hcall) as [Hclass [msg Hmsg]].
  eexists _, msg. split; [exact Hcall|]. split; [exact Hclass | exact Hmsg].
Defined.

Lemma chat_completion_returns_witness :
  ∃ response,
    chat_completion sample_create sample_clock sample_uuid4_hex sample_settings
      sample_registry "llama-7b" [] 512 0.7%float 0.95%float 0%nat
    = (inr response, 1%nat) ∧
    resp_model response = "llama-7b" ∧ resp_created response = 1000.
Proof.
  destruct (chat_completion sample_create sample_clock sample_uuid4_hex
              sample_settings sample_registry "llama-7b" [] 512 0.7%float
              0.95%float 0%nat) as [[e|response] w'] eqn:Hcall;
    [vm_compute in Hcall; discriminate Hcall|].
  assert (Hw : w' = 1%nat) by (vm_compute in Hcall; by injection Hcall).
  subst w'.
  destruct (chat_completion_returns sample_create sample_clock sample_uuid4_hex
              sample_settings sample_registry "llama-7b" [] 512 0.7%float 0.95%float
              0%nat 1%nat response Hcall) as (_ & Hmodel & Hcreated & _).
  exists response. by repeat split.
Defined.

Lemma batch_for_unregistered_model_witness :
  batch_chat_completion sample_create sample_clock sample_uuid4_hex sample_settings
    sample_registry "gpt-9" example_tasks 512 0.7%float 0.95%float 0%nat =
  (inr [ {| result_id := "task-1"; result_output := "";
            result_usage := {| prompt_tokens := 0; completion_tokens := 0;
                               total_tokens := 0 |};
            result_error := Some "Unknown model: gpt-9" |};
         {| result_id := "task-2"; result_output := "";
            result_usage := {| prompt_tokens := 0; completion_tokens := 0;
                               total_tokens := 0 |};
            result_error := Some "Unknown model: gpt-9" |} ],
   0%nat).
Proof.
  apply (batch_for_unregistered_model sample_create sample_clock sample_uuid4_hex
           sample_settings sample_registry "gpt-9" example_tasks).
  vm_compute. reflexivity.
Defined.

(** ** The chat endpoint *)

(** X28.  The chat endpoint answers in one of three ways.  For a model that
    is not registered: the 400 error that lists the available models, and
    no call to the backend.  For a registered model whose call fails in any
    way: the 500 error with the detail
    ["Error generating completion: Error calling model <id>: ..."].
    Otherwise: the response, for the requested model, with one choice by
    the assistant. *)
Theorem create_chat_completion_outcomes {World : Type}
    (create_stream :
       bool → AsyncOpenAI → string → list Message → Z → float → float
       → IO World BackendResponse)
    clock uuid4_hex settings model_registry listed_models request (w : World) :
  let answer :=
    create_chat_completion create_stream clock uuid4_hex settings model_registry
      listed_models request w in
  match answer.1 with
  | inl err =>
      (models model_registry !! chat_model request = None ∧
       answer.2 = w ∧
       err = {| status_code := 400;
                detail := "Unknown model: " +:+ chat_model request +:+
                          ". Available models: " +:+ join ", " listed_models |})
      ∨
      (is_Some (models model_registry !! chat_model request) ∧
       status_code err = 500 ∧
       ∃ msg, detail err =
              "Error generating completion: " +:+
              "Error calling model " +:+ chat_model request +:+ ": " +:+ msg)
  | inr response =>
      is_Some (models model_registry !! chat_model request) ∧
      resp_model response = chat_model request ∧
      ∃ choice,
        resp_choices response = [choice] ∧
        role (choice_message choice) = "assistant"
  end.
Proof.
  intros answer. unfold answer, create_chat_completion, is_valid_model.
  destruct (models model_registry !! chat_model request) as [entry|] eqn:Hentry.
  - rewrite bool_decide_true by (by eexists). cbn [negb].
    destruct (chat_completion_registered
                (create_stream (or_default (chat_stream request) false))
                clock uuid4_hex settings model_registry
                (chat_model request) entry (chat_messages request)
                (or_default (chat_max_tokens request) 512)
                (or_default (chat_temperature request) 0.7%float)
                (or_default (chat_top_p request) 0.95%float) w Hentry)
      as (client & _ & ->).
    destruct (create_stream _ client _ _ _ _ _ w) as [[e|bresp] w'].
    + cbn. right. split; [by eexists|]. split; [done|]. by eexists.
    + destruct (br_choices bresp) as [|first others].
      * cbn. right. split; [by eexists|]. split; [done|]. by eexists.
      * cbn. split; [by eexists|]. split; [done|]. by eexists.
  - rewrite bool_decide_false by (by intros [? ?]). cbn. left. by repeat split.
Qed.

(** ** A base URL whose variable is not set *)

(** X29.  A model whose [base_url] is written [${VAR}], loaded while [VAR]
    is not set or is empty, gets a client without a base URL: the client
    built for it falls back to the library's default endpoint. *)
Theorem unset_variable_gives_no_base_url {World : Type} settings getenv config_models
    model_id entry v (w : World) :
  config_models !! model_id = Some entry →
  base_url entry = Some ("${" +:+ v +:+ "}") →
  getenv v = None ∨ getenv v = Some "" →
  ∃ client,
    _get_client settings (_load_config getenv config_models) model_id w =
      (inr client, w) ∧
    client_base_url client = None.
Proof.
  intros Hentry Hurl Henv. unfold _get_client, get_model, _load_config.
  cbn [models]. rewrite lookup_fmap, Hentry. cbn [fmap option_fmap option_map].
  eexists. split; [reflexivity|]. cbn [client_base_url].
  unfold substitute_base_url. rewrite Hurl.
  destruct (env_reference v) as (H1 & H2 & H3). rewrite H1, H2, H3.
  cbn [andb base_url]. by destruct Henv as [-> | ->].
Qed.

Lemma unset_variable_gives_no_base_url_witness :
  ∃ client,
    _get_client sample_settings
      (_load_config (λ _, None)
         {[ "llama-7b" := {| model_name := "llama"; backend_type := None;
                             base_url := Some "${LLAMA_API_URL}";
                             timeout := None |} ]})
      "llama-7b" 0%nat = (inr client, 0%nat) ∧
    client_base_url client = None.
Proof.
  apply (unset_variable_gives_no_base_url sample_settings (λ _, None) _ "llama-7b"
           {| model_name := "llama"; backend_type := None;
              base_url := Some "${LLAMA_API_URL}"; timeout := None |}
           "LLAMA_API_URL" 0%nat).
  - vm_compute. reflexivity.
  - reflexivity.
  - by left.
Defined.
